(** * A shallow embedding of pgsync's change-propagation core

    Embeds [src/pgsync/checkpoint.py] (the two checkpoint backends) and the
    parts of [src/pgsync/sync.py] that derive the sync name, resolve a run of
    change payloads into bulk ops and filter sets, drive the logical
    replication slot and advance the checkpoint.  External collaborators
    (the query builder, the search client, the tree and the database) are
    fields of the [Sync] record, so every theorem holds for all of them. *)

From Stdlib Require Import String Ascii List ZArith Bool Lia.
From Stdlib Require Import Decimal DecimalString DecimalZ.
Import ListNotations.

(* ------------------------------------------------------------------ *)
(** ** Python values and exceptions *)

(** Scalars carried by payload maps (decoded JSON). *)
Inductive pyval :=
| PyInt (z : Z)
| PyStr (s : string)
| PyNone.

Definition pyval_eqb (a b : pyval) : bool :=
  match a, b with
  | PyInt x, PyInt y => Z.eqb x y
  | PyStr x, PyStr y => String.eqb x y
  | PyNone, PyNone => true
  | _, _ => false
  end.

Lemma pyval_eqb_eq a b : pyval_eqb a b = true <-> a = b.
Proof.
  destruct a, b; simpl; split; intro H; try discriminate;
    try (apply Z.eqb_eq in H; congruence);
    try (apply String.eqb_eq in H; congruence);
    try (inversion H; subst; first [apply Z.eqb_refl | apply String.eqb_refl | reflexivity]);
    reflexivity.
Qed.

(** [str(int)] for Python integers: optional minus sign and decimal digits. *)
Definition py_str_int (z : Z) : string :=
  NilZero.string_of_int (Z.to_int z).

(** [int(s)] on the decimal form [-?[0-9]+] that [str] produces; any other
    text raises [ValueError] (represented by [None]). *)
Definition py_int (s : string) : option Z :=
  option_map Z.of_int (NilZero.int_of_string s).

(** [str(v)] *)
Definition py_str (v : pyval) : string :=
  match v with
  | PyInt z => py_str_int z
  | PyStr s => s
  | PyNone => "None"
  end.

Inductive exn :=
| ValueError
| KeyError
| TypeError
| IndexError
| ForeignKeyError
| PrimaryKeyNotFoundError
| InvalidTGOPError
| RuntimeError.

Inductive result (A : Type) :=
| Ok (a : A)
| Err (e : exn).
Arguments Ok {A} a.
Arguments Err {A} e.

(* ------------------------------------------------------------------ *)
(** ** Checkpoint backends ([checkpoint.py]) *)

Module FileCheckpoint.

(** The object's cached [_checkpoint] and the contents of the file
    [<CHECKPOINT_PATH>/.<name>] ([None] when the file does not exist). *)
Record state := mk {
  _checkpoint : option Z;
  file : option string
}.

(** [set_value]: reject [None], otherwise overwrite the file with [str(value)]
    and cache the value. *)
Definition set_value (st : state) (value : option Z) : result unit * state :=
  match value with
  | None => (Err ValueError, st)
  | Some v => (Ok tt, mk (Some v) (Some (py_str_int v)))
  end.

(** [get_value]: when the file exists, parse it with [int] and cache the
    result; return the cache. *)
Definition get_value (st : state) : result (option Z) * state :=
  match file st with
  | Some s =>
      match py_int s with
      | Some v => (Ok (Some v), mk (Some v) (file st))
      | None => (Err ValueError, st)
      end
  | None => (Ok (_checkpoint st), st)
  end.

(** [teardown]: [os.unlink] the file; a missing file is only logged.  The
    cached [_checkpoint] is left as it is. *)
Definition teardown (st : state) : result unit * state :=
  (Ok tt, mk (_checkpoint st) None).

End FileCheckpoint.

Module RedisCheckpoint.

(** The key-value store, as an association list from key to the stored
    string; [_key] is [f"{namespace}:{name}"]. *)
Record state := mk {
  _key : string;
  store : list (string * string)
}.

Fixpoint kv_get (k : string) (l : list (string * string)) : option string :=
  match l with
  | [] => None
  | (k', v) :: l' => if String.eqb k k' then Some v else kv_get k l'
  end.

Definition kv_set (k v : string) (l : list (string * string))
  : list (string * string) :=
  (k, v) :: filter (fun kv => negb (String.eqb k (fst kv))) l.

(** [set_value]: reject [None], otherwise [redis.set(key, value)], which
    stores the decimal text of the integer. *)
Definition set_value (st : state) (value : option Z) : result unit * state :=
  match value with
  | None => (Err ValueError, st)
  | Some v => (Ok tt, mk (_key st) (kv_set (_key st) (py_str_int v) (store st)))
  end.

(** [get_value]: [int(value) if value is not None else None]. *)
Definition get_value (st : state) : result (option Z) :=
  match kv_get (_key st) (store st) with
  | Some s =>
      match py_int s with
      | Some v => Ok (Some v)
      | None => Err ValueError
      end
  | None => Ok None
  end.

(** [teardown]: [redis.delete(key)]. *)
Definition teardown (st : state) : result unit * state :=
  (Ok tt, mk (_key st) (filter (fun kv => negb (String.eqb (_key st) (fst kv))) (store st))).

End RedisCheckpoint.

(* ------------------------------------------------------------------ *)
(** ** Sync name ([Sync.__init__]) *)

Module SyncName.

Local Open Scope Z_scope.

(** Python strings as lists of Unicode code points. *)
Definition pystr := list Z.

(** Membership in the class [[0-9a-zA-Z_]]. *)
Definition is_name_char (c : Z) : bool :=
  ((48 <=? c) && (c <=? 57)) || ((65 <=? c) && (c <=? 90))
  || ((97 <=? c) && (c <=? 122)) || (c =? 95).

(** [re.sub("[^0-9a-zA-Z_]+", "", s)]: deleting every maximal run of
    characters outside the class deletes exactly those characters. *)
Definition strip_non_name (s : pystr) : pystr := filter is_name_char s.

(** [re.sub(...)(f"{database.lower()}_{index}")[:63]], for a given
    [str.lower]. *)
Definition name (lower : pystr -> pystr) (database index : pystr) : pystr :=
  firstn 63 (strip_non_name (lower database ++ [95] ++ index)).

(** Number of bytes of the UTF-8 encoding of a code point sequence. *)
Definition utf8_width (c : Z) : nat :=
  if c <? 128 then 1%nat else if c <? 2048 then 2%nat
  else if c <? 65536 then 3%nat else 4%nat.

Definition utf8_len (s : pystr) : nat := fold_right (fun c n => (utf8_width c + n)%nat) 0%nat s.

End SyncName.

(* ------------------------------------------------------------------ *)
(** ** The [Sync] class ([sync.py]) *)

Module Sync.

Local Open Scope string_scope.
Local Open Scope list_scope.
Local Set Warnings "-register-all".

(** A JSON object / Python dict with distinct keys, in insertion order. *)
Definition pydict := list (string * pyval).

Fixpoint dict_get (d : pydict) (k : string) : option pyval :=
  match d with
  | [] => None
  | (k', v) :: d' => if String.eqb k k' then Some v else dict_get d' k
  end.

(** [d[k]] *)
Definition dict_index (d : pydict) (k : string) : result pyval :=
  match dict_get d k with Some v => Ok v | None => Err KeyError end.

(** [d.get(k)] *)
Definition dict_get_none (d : pydict) (k : string) : pyval :=
  match dict_get d k with Some v => v | None => PyNone end.

(** [d[k] = v] *)
Fixpoint dict_set (d : pydict) (k : string) (v : pyval) : pydict :=
  match d with
  | [] => [(k, v)]
  | (k', v') :: d' =>
      if String.eqb k k' then (k', v) :: d' else (k', v') :: dict_set d' k v
  end.

(** [dict(zip(keys, values))] *)
Definition dict_zip (keys : list string) (values : list pyval) : pydict :=
  fold_left (fun d kv => dict_set d (fst kv) (snd kv)) (combine keys values) [].

Definition in_list (x : string) (l : list string) : bool :=
  existsb (String.eqb x) l.

(** A [defaultdict(list)] of search fields. *)
Definition fields := list (string * list pyval).

Fixpoint fields_append (f : fields) (k : string) (v : pyval) : fields :=
  match f with
  | [] => [(k, [v])]
  | (k', vs) :: f' =>
      if String.eqb k k' then (k', vs ++ [v]) :: f' else (k', vs) :: fields_append f' k v
  end.

(** [bool(v)] *)
Definition truthy (v : pyval) : bool :=
  match v with
  | PyInt z => negb (Z.eqb z 0)
  | PyStr s => negb (String.eqb s "")
  | PyNone => false
  end.

Definition tg_op_INSERT := "INSERT".
Definition tg_op_UPDATE := "UPDATE".
Definition tg_op_DELETE := "DELETE".
Definition tg_op_TRUNCATE := "TRUNCATE".
Definition TG_OP := [tg_op_INSERT; tg_op_UPDATE; tg_op_DELETE; tg_op_TRUNCATE].

(** A change event ([base.Payload]). *)
Record payload := mkPayload {
  tg_op : string;
  schema : string;
  table : string;
  old : pydict;
  new : pydict;
  xmin : option Z
}.

(** A tree node: [node.primary_keys] lists the column names of
    [node.model.primary_keys]; [node.is_root] is [parent is None]. *)
Inductive node := mkNode {
  node_name : string;
  node_table : string;
  node_schema : string;
  node_primary_keys : list string;
  node_base_tables : list string;
  node_parent : option node
}.

Definition is_root (n : node) : bool :=
  match node_parent n with None => true | Some _ => false end.

(** The result of [get_foreign_keys]: node name to column names. *)
Definition fkmap := list (string * list string).

Fixpoint fk_get (m : fkmap) (k : string) : option (list string) :=
  match m with
  | [] => None
  | (k', v) :: m' => if String.eqb k k' then Some v else fk_get m' k
  end.

(** [foreign_keys[k]] *)
Definition fk_index (m : fkmap) (k : string) : result (list string) :=
  match fk_get m k with Some v => Ok v | None => Err KeyError end.

(** A filter set: table to list of equality predicates; a Python dict, so
    keys that coincide (the node's table and the root's) share one slot. *)
Definition filterset := list (string * list pydict).

Fixpoint fs_get (fs : filterset) (k : string) : option (list pydict) :=
  match fs with
  | [] => None
  | (k', v) :: fs' => if String.eqb k k' then Some v else fs_get fs' k
  end.

Fixpoint fs_set (fs : filterset) (k : string) (v : list pydict) : filterset :=
  match fs with
  | [] => [(k, v)]
  | (k', v') :: fs' =>
      if String.eqb k k' then (k', v) :: fs' else (k', v') :: fs_set fs' k v
  end.

(** [filters[k].append(x)] *)
Definition fs_append (fs : filterset) (k : string) (x : pydict) : result filterset :=
  match fs_get fs k with
  | Some l => Ok (fs_set fs k (l ++ [x]))
  | None => Err KeyError
  end.

(** [filters[k].extend(xs)] *)
Definition fs_extend (fs : filterset) (k : string) (xs : list pydict) : result filterset :=
  match fs_get fs k with
  | Some l => Ok (fs_set fs k (l ++ xs))
  | None => Err KeyError
  end.

(** [any(filters.values())] *)
Definition fs_any (fs : filterset) : bool :=
  existsb (fun kv => match snd kv with [] => false | _ => true end) fs.

(** A bulk op of the delete kind: [{_id, _index, _op_type, [_routing], [_type]}]. *)
Record doc := mkDoc {
  _id : string;
  _index : string;
  _op_type : string;
  _routing : option pyval;
  _type : option string
}.

(** Bounds of a logical-slot read: [(txmin, txmax, upto_nchanges, upto_lsn)]. *)
Definition bounds := (option Z * option Z * option nat * option string)%type.

(** A row returned by the logical slot. *)
Record row := mkRow { xid : Z; row_data : string }.

(** Observable calls to the collaborators. *)
Inductive event :=
| EGetForeignKeys (parent child : string)       (* query_builder.get_foreign_keys *)
| EGetForeignKeysAlt (parent child : string)    (* query_builder._get_foreign_keys *)
| ESearch (tbl : string) (f : option fields)    (* search_client._search *)
| EBulk (docs : list doc) (raise_on_error : option bool) (* search_client.bulk of a list *)
| ESync (filters : filterset)                    (* self.sync(filters=...) *)
| ESyncTx (txmin txmax : option Z)               (* self.sync(txmin=..., txmax=...) *)
| EPeek (b : bounds)                             (* logical_slot_peek_changes *)
| EGet (b : bounds).                             (* logical_slot_get_changes *)

Definition is_slot_event (e : event) : bool :=
  match e with EPeek _ | EGet _ => true | _ => false end.

(** The instance's configuration and collaborators. *)
Record sync := mkSync {
  index : string;
  routing : option string;
  major_version : Z;
  is_opensearch : bool;
  use_async : bool;                    (* settings.USE_ASYNC *)
  delimiter : string;                  (* PRIMARY_KEY_DELIMITER *)
  filter_chunk_size : positive;        (* settings.FILTER_CHUNK_SIZE *)
  logical_slot_chunk_size : nat;       (* settings.LOGICAL_SLOT_CHUNK_SIZE *)
  root : node;                         (* tree.root *)
  tree_tables : list string;           (* tree.tables *)
  tree_schemas : list string;          (* tree.schemas *)
  tree_nodes : list node;              (* tree.traverse_breadth_first() *)
  get_node : string -> string -> node; (* tree.get_node(table, schema) *)
  data : payload -> pydict;            (* Payload.data *)
  foreign_key_constraint : payload -> node -> list (string * (string * pyval));
  get_foreign_keys : node -> node -> result fkmap;
  get_foreign_keys_alt : node -> node -> result fkmap;
  search : string -> option fields -> list string;  (* _search(index, table, fields) *)
  parse_logical_slot : string -> result payload
}.

(** Mutable state: the calls made so far, the stored checkpoint and the
    [_truncate] flag. *)
Record world := mkWorld {
  trace : list event;
  checkpoint : option Z;
  _truncate : bool
}.

Definition M (A : Type) := world -> result A * world.

Definition ret {A} (a : A) : M A := fun w => (Ok a, w).
Definition throw {A} (e : exn) : M A := fun w => (Err e, w).
Definition liftR {A} (r : result A) : M A := fun w => (r, w).
Definition bind {A B} (m : M A) (k : A -> M B) : M B :=
  fun w => match m w with
           | (Ok a, w') => k a w'
           | (Err e, w') => (Err e, w')
           end.

Notation "x <- m ;; k" := (bind m (fun x => k))
  (at level 61, m at next level, right associativity).
Notation "' p <- m ;; k" := (bind m (fun x => match x with p => k end))
  (at level 61, p pattern, m at next level, right associativity).

Definition emit (e : event) : M unit :=
  fun w => (Ok tt, mkWorld (trace w ++ [e]) (checkpoint w) (_truncate w)).

Definition get_checkpoint : M (option Z) := fun w => (Ok (checkpoint w), w).

(** [self.checkpoint = v]: [set_value] with an integer succeeds. *)
Definition set_checkpoint (v : Z) : M unit :=
  fun w => (Ok tt, mkWorld (trace w) (Some v) (_truncate w)).

Definition set_truncate (b : bool) : M unit :=
  fun w => (Ok tt, mkWorld (trace w) (checkpoint w) b).

Definition get_truncate : M bool := fun w => (Ok (_truncate w), w).

(** [try: m except ForeignKeyError: h] *)
Definition except_fk {A} (m : M A) (h : M A) : M A :=
  fun w => match m w with
           | (Err ForeignKeyError, w') => h w'
           | r => r
           end.

Fixpoint foldM {A B} (f : B -> A -> M B) (b : B) (l : list A) : M B :=
  match l with
  | [] => ret b
  | x :: l' => bind (f b x) (fun b' => foldM f b' l')
  end.

Fixpoint for_ {A} (l : list A) (f : A -> M unit) : M unit :=
  match l with
  | [] => ret tt
  | x :: l' => bind (f x) (fun _ => for_ l' f)
  end.

Fixpoint map_res {A B} (f : A -> result B) (l : list A) : result (list B) :=
  match l with
  | [] => Ok []
  | x :: l' =>
      match f x with
      | Ok y => match map_res f l' with Ok ys => Ok (y :: ys) | Err e => Err e end
      | Err e => Err e
      end
  end.

(* ---------------------------------------------------------------- *)
(** *** Resolver helpers *)

Definition nonempty {A} (l : list A) : bool :=
  match l with [] => false | _ => true end.

(** [str.split(sep)] for a non-empty separator; [fuel] bounds the number of
    characters left. *)
Fixpoint split_go (sep : string) (fuel : nat) (s cur : string) : list string :=
  match fuel with
  | O => [cur ++ s]%string
  | S fuel' =>
      match s with
      | EmptyString => [cur]
      | String c s' =>
          if String.prefix sep s
          then cur :: split_go sep fuel'
                        (substring (String.length sep)
                           (String.length s - String.length sep) s) ""
          else split_go sep fuel' s' (cur ++ String c EmptyString)%string
      end
  end.

Definition py_split (s sep : string) : result (list string) :=
  if String.eqb sep "" then Err ValueError
  else Ok (split_go sep (String.length s) s "").

(** [for i, key in enumerate(keys): where[key] = params[i]] *)
Fixpoint where_from (keys params : list string) (acc : pydict) : result pydict :=
  match keys, params with
  | [], _ => Ok acc
  | k :: ks, p :: ps => where_from ks ps (dict_set acc k (PyStr p))
  | _ :: _, [] => Err IndexError
  end.

Section Resolver.

Variable self : sync.

Definition root_pks : list string := node_primary_keys (root self).
Definition root_table : string := node_table (root self).

(** [self.get_doc_id(primary_keys, table)] *)
Definition get_doc_id (primary_keys : list pyval) (tbl : string) : result string :=
  match primary_keys with
  | [] => Err PrimaryKeyNotFoundError
  | _ => Ok (String.concat (delimiter self) (map py_str primary_keys))
  end.

(** [doc["_type"] = "_doc"] on old Elasticsearch versions. *)
Definition doc_type : option string :=
  if (major_version self <? 7)%Z && negb (is_opensearch self) then Some "_doc" else None.

(** [if self.routing:] *)
Definition routing_set : bool :=
  match routing self with Some r => negb (String.eqb r "") | None => false end.

(** The root filter record decoded from a document id. *)
Definition where_of_doc_id (doc_id : string) : result pydict :=
  match py_split doc_id (delimiter self) with
  | Ok params => where_from root_pks params []
  | Err e => Err e
  end.

Definition search_ (tbl : string) (f : option fields) : M (list string) :=
  bind (emit (ESearch tbl f)) (fun _ => ret (search self tbl f)).

Definition get_fks (parent child : node) : M fkmap :=
  bind (emit (EGetForeignKeys (node_name parent) (node_name child)))
    (fun _ => liftR (get_foreign_keys self parent child)).

Definition get_fks_alt (parent child : node) : M fkmap :=
  bind (emit (EGetForeignKeysAlt (node_name parent) (node_name child)))
    (fun _ => liftR (get_foreign_keys_alt self parent child)).

(** [try: get_foreign_keys(...) except ForeignKeyError: _get_foreign_keys(...)] *)
Definition get_fks_fallback (parent child : node) : M fkmap :=
  except_fk (get_fks parent child) (get_fks_alt parent child).

(** Append, for every document id, its root filter record. *)
Definition append_doc_ids (filters : list pydict) (doc_ids : list string)
  : M (list pydict) :=
  foldM (fun fl doc_id =>
           wh <- liftR (where_of_doc_id doc_id) ;;
           ret (fl ++ [wh])) filters doc_ids.

(** [Sync._root_primary_key_resolver] *)
Definition _root_primary_key_resolver (n : node) (p : payload)
  (filters : list pydict) : M (list pydict) :=
  primary_values <- liftR (map_res (dict_index (data self p)) (node_primary_keys n)) ;;
  let primary_fields := dict_zip (node_primary_keys n) primary_values in
  let flds := fold_left (fun f kv => fields_append f (fst kv) (snd kv)) primary_fields [] in
  doc_ids <- search_ (node_table n) (Some flds) ;;
  append_doc_ids filters doc_ids.

(** [Sync._root_foreign_key_resolver] *)
Definition _root_foreign_key_resolver (n : node) (p : payload) (foreign_keys : fkmap)
  (filters : list pydict) : M (list pydict) :=
  cols <- liftR (fk_index foreign_keys (node_name n)) ;;
  let foreign_values := map (dict_get_none (new p)) cols in
  let flds := fold_left (fun f key =>
                 fold_left (fun f v => if truthy v then fields_append f key v else f)
                   foreign_values f) (node_primary_keys n) [] in
  parent <- (match node_parent n with
             | Some q => ret q
             | None => throw RuntimeError  (* AttributeError on None.table *)
             end) ;;
  doc_ids <- search_ (node_table parent) (Some flds) ;;
  append_doc_ids filters doc_ids.

(** [Sync._through_node_resolver] *)
Definition _through_node_resolver (n : node) (p : payload) (filters : list pydict)
  : M (list pydict) :=
  let fkc := foreign_key_constraint self p n in
  match find (fun kv => String.eqb (fst kv) (node_name (root self))) fkc with
  | Some (_, (remote, value)) => ret (filters ++ [[(remote, value)]])
  | None => ret filters
  end.

(** The root filter record [dict(zip(root_pks, [data[k] for k in root_pks]))]. *)
Definition root_record (p : payload) : result pydict :=
  match map_res (dict_index (data self p)) root_pks with
  | Ok vs => Ok (dict_zip root_pks vs)
  | Err e => Err e
  end.

(** [Sync._insert_op] *)
Definition _insert_op (n : node) (filters : filterset) (payloads : list payload)
  : M filterset :=
  if in_list (node_table n) (tree_tables self) then
    match node_parent n with
    | None =>
        foldM (fun fs p =>
                 r <- liftR (root_record p) ;;
                 liftR (fs_append fs (node_table n) r)) filters payloads
    | Some parent =>
        foreign_keys <- get_fks_fallback parent n ;;
        '(fs, _filters) <-
          foldM (fun acc p =>
                   let '(fs, _filters) := acc in
                   node_keys <- liftR (fk_index foreign_keys (node_name n)) ;;
                   fs <- foldM (fun fs node_key =>
                            parent_keys <- liftR (fk_index foreign_keys (node_name parent)) ;;
                            foldM (fun fs parent_key =>
                                     if String.eqb node_key parent_key then
                                       v <- liftR (dict_index (data self p) node_key) ;;
                                       liftR (fs_append fs (node_table parent) [(parent_key, v)])
                                     else ret fs) fs parent_keys) fs node_keys ;;
                   _filters <- _root_foreign_key_resolver n p foreign_keys _filters ;;
                   _filters <- _through_node_resolver n p _filters ;;
                   ret (fs, _filters)) (filters, []) payloads ;;
        if nonempty _filters then liftR (fs_extend fs root_table _filters) else ret fs
    end
  else
    (* a through table: the parent is the entity that changed *)
    parent <- (match node_parent n with
               | Some q => ret q
               | None => throw RuntimeError  (* AttributeError on None *)
               end) ;;
    foreign_keys <- get_fks parent n ;;
    foldM (fun fs p =>
             node_cols <- liftR (fk_index foreign_keys (node_name n)) ;;
             '(fs, _) <-
               foldM (fun acc key =>
                        let '(fs, i) := acc in
                        parent_cols <- liftR (fk_index foreign_keys (node_name parent)) ;;
                        pk <- liftR (match nth_error parent_cols i with
                                     | Some c => Ok c
                                     | None => Err IndexError
                                     end) ;;
                        v <- liftR (dict_index (data self p) key) ;;
                        fs <- liftR (fs_append fs (node_table parent) [(pk, v)]) ;;
                        ret (fs, S i)) (fs, O) node_cols ;;
             ret fs) filters payloads.

(** The old primary-key values: [[old[k] for k in root_pks if k in old]]. *)
Definition old_values (p : payload) : list pyval :=
  flat_map (fun k => match dict_get (old p) k with Some v => [v] | None => [] end) root_pks.

Definition list_pyval_eqb (a b : list pyval) : bool :=
  (Nat.eqb (length a) (length b)) && forallb (fun xy => pyval_eqb (fst xy) (snd xy)) (combine a b).

(** [Sync._update_op] *)
Definition _update_op (n : node) (filters : filterset) (payloads : list payload)
  : M filterset :=
  match node_parent n with
  | None =>
      '(fs, docs) <-
        foldM (fun acc p =>
                 let '(fs, docs) := acc in
                 primary_values <- liftR (map_res (dict_index (data self p)) (node_primary_keys n)) ;;
                 fs <- liftR (fs_append fs (node_table n)
                                (dict_zip (node_primary_keys n) primary_values)) ;;
                 let ov := old_values p in
                 nv <- liftR (map_res (dict_index (new p)) root_pks) ;;
                 if Nat.eqb (length ov) (length nv) && negb (list_pyval_eqb ov nv) then
                   id <- liftR (get_doc_id ov root_table) ;;
                   (* [old_values[self.routing]] indexes a list with a str *)
                   _ <- (if routing_set then throw TypeError else ret tt) ;;
                   ret (fs, docs ++ [mkDoc id (index self) "delete" None doc_type])
                 else ret (fs, docs)) (filters, []) payloads ;;
      _ <- (if nonempty docs then emit (EBulk docs None) else ret tt) ;;
      ret fs
  | Some parent =>
      foldM (fun fs p =>
               _filters <- _root_primary_key_resolver n p [] ;;
               foreign_keys <- get_fks_fallback parent n ;;
               _filters <- _root_foreign_key_resolver n p foreign_keys _filters ;;
               if nonempty _filters then liftR (fs_extend fs root_table _filters)
               else ret fs) filters payloads
  end.

(** [Sync._delete_op] *)
Definition _delete_op (n : node) (filters : filterset) (payloads : list payload)
  : M filterset :=
  match node_parent n with
  | None =>
      docs <-
        foldM (fun docs p =>
                 primary_values <- liftR (map_res (dict_index (data self p)) root_pks) ;;
                 id <- liftR (get_doc_id primary_values root_table) ;;
                 rt <- (match routing self with
                        | Some col =>
                            if routing_set then
                              v <- liftR (dict_index (data self p) col) ;; ret (Some v)
                            else ret None
                        | None => ret None
                        end) ;;
                 ret (docs ++ [mkDoc id (index self) "delete" rt doc_type])) [] payloads ;;
      _ <- (if nonempty docs
            then emit (EBulk docs (if use_async self then Some false else None))
            else ret tt) ;;
      ret filters
  | Some _ =>
      foldM (fun fs p =>
               _filters <- _root_primary_key_resolver n p [] ;;
               if nonempty _filters then liftR (fs_extend fs root_table _filters)
               else ret fs) filters payloads
  end.

(** [Sync._truncate_op] *)
Definition _truncate_op (n : node) (filters : filterset) : M filterset :=
  match node_parent n with
  | None =>
      doc_ids <- search_ (node_table n) None ;;
      let docs := map (fun id => mkDoc id (index self) "delete" None doc_type) doc_ids in
      _ <- (if nonempty docs then emit (EBulk docs None) else ret tt) ;;
      ret filters
  | Some _ =>
      doc_ids <- search_ (node_table n) None ;;
      _filters <- append_doc_ids [] doc_ids ;;
      if nonempty _filters then liftR (fs_extend filters root_table _filters)
      else ret filters
  end.

(** Modelled from the spec: [utils.chunks], which is not among the sources;
    §4.5 says the filters "are chunked by [FILTER_CHUNK_SIZE]": successive
    slices of [size] elements, the last one possibly shorter. *)
Fixpoint chunks_go {A} (fuel size : nat) (l : list A) : list (list A) :=
  match fuel with
  | O => []
  | S fuel' =>
      match l with
      | [] => []
      | _ => firstn size l :: chunks_go fuel' size (skipn size l)
      end
  end.

Definition chunks {A} (l : list A) (size : positive) : list (list A) :=
  chunks_go (length l) (Pos.to_nat size) l.

(** [filters.get(k)] *)
Definition fs_get_list (fs : filterset) (k : string) : list pydict :=
  match fs_get fs k with Some l => l | None => [] end.

(** The filter-execution part of [Sync._payloads]: the chunked
    cross-product of the root, node and parent slots fed to [self.sync]. *)
Definition execute_filters (n : node) (filters : filterset) : M unit :=
  let size := filter_chunk_size self in
  for_ (chunks (fs_get_list filters root_table) size) (fun l1 =>
    if nonempty (fs_get_list filters (node_table n)) then
      for_ (chunks (fs_get_list filters (node_table n)) size) (fun l2 =>
        match node_parent n with
        | Some parent =>
            if nonempty (fs_get_list filters (node_table parent)) then
              for_ (chunks (fs_get_list filters (node_table parent)) size) (fun l3 =>
                emit (ESync (fs_set (fs_set (fs_set [] root_table l1) (node_table n) l2)
                               (node_table parent) l3)))
            else emit (ESync (fs_set (fs_set [] root_table l1) (node_table n) l2))
        | None => emit (ESync (fs_set (fs_set [] root_table l1) (node_table n) l2))
        end)
    else emit (ESync (fs_set [] root_table l1))).

(** [if any(filters.values()): ...]: no query at all for an empty filter
    set, which would be a full-table scan. *)
Definition sync_filters (n : node) (filters : filterset) : M unit :=
  if fs_any filters then execute_filters n filters else ret tt.

(** The filter set [_payloads] starts from. *)
Definition initial_filters (n : node) : filterset :=
  let fs := fs_set (fs_set [] (node_table n) []) root_table [] in
  match node_parent n with
  | Some parent => fs_set fs (node_table parent) []
  | None => fs
  end.

(** [set(node.model.primary_keys).issubset(set(payload.data.keys()))] *)
Definition has_keys (d : pydict) (keys : list string) : bool :=
  forallb (fun k => match dict_get d k with Some _ => true | None => false end) keys.

(** The resolver part of [Sync._payloads]: dispatch on the [tg_op] of the
    last payload of the run (the loop variable [payload] after the
    primary-key check). *)
Definition resolve (n : node) (p : payload) (payloads : list payload) : M filterset :=
  let filters := initial_filters n in
  filters <- (if String.eqb (tg_op p) tg_op_INSERT then _insert_op n filters payloads
              else ret filters) ;;
  filters <- (if String.eqb (tg_op p) tg_op_UPDATE then _update_op n filters payloads
              else ret filters) ;;
  filters <- (if String.eqb (tg_op p) tg_op_DELETE then _delete_op n filters payloads
              else ret filters) ;;
  if String.eqb (tg_op p) tg_op_TRUNCATE then _truncate_op n filters else ret filters.

(** [Sync._payloads]: a run of payloads with the same [tg_op] and table. *)
Definition _payloads (payloads : list payload) : M unit :=
  match payloads with
  | [] => throw IndexError
  | p0 :: _ =>
      if negb (in_list (tg_op p0) TG_OP) then throw InvalidTGOPError
      else if negb (in_list (table p0) (tree_tables self))
              || negb (in_list (schema p0) (tree_schemas self)) then ret tt
      else
        let n := get_node self (table p0) (schema p0) in
        _ <- for_ payloads (fun p =>
               if nonempty (data self p) && negb (has_keys (data self p) (node_primary_keys n))
               then throw RuntimeError  (* bare [raise] with no active exception *)
               else ret tt) ;;
        let p := last payloads p0 in
        filters <- resolve n p payloads ;;
        sync_filters n filters
  end.

(* ---------------------------------------------------------------- *)
(** *** Logical replication slot *)

Definition starts_with_begin_or_commit (s : string) : bool :=
  String.prefix "BEGIN" s || String.prefix "COMMIT" s.

Definition same_run (p q : payload) : bool :=
  String.eqb (tg_op p) (tg_op q) && String.eqb (table p) (table q).

(** The per-row loop of [logical_slot_changes]: parse, drop unknown schemas,
    and flush the accumulated run when the next row differs or at the end. *)
Fixpoint process_rows (payloads : list payload) (rows : list row) : M unit :=
  match rows with
  | [] => ret tt
  | r :: rest =>
      p <- liftR (parse_logical_slot self (row_data r)) ;;
      if negb (in_list (schema p) (tree_schemas self)) then process_rows payloads rest
      else
        let payloads := payloads ++ [p] in
        match rest with
        | r2 :: _ =>
            p2 <- liftR (parse_logical_slot self (row_data r2)) ;;
            if negb (same_run p p2) then
              _ <- _payloads payloads ;; process_rows [] rest
            else process_rows payloads rest
        | [] => _payloads payloads
        end
  end.

(** [Sync.logical_slot_changes]; [responses] are the successive results of
    the peeks ([[]] once the slot has nothing more in the bounds). *)
Fixpoint logical_slot_changes (b : bounds) (responses : list (list row)) : M unit :=
  match responses with
  | [] => emit (EPeek b)
  | changes :: responses' =>
      _ <- emit (EPeek b) ;;
      if negb (nonempty changes) then ret tt
      else
        let rows := filter (fun r => negb (starts_with_begin_or_commit (row_data r))) changes in
        _ <- process_rows [] rows ;;
        _ <- emit (EGet b) ;;
        logical_slot_changes b responses'
  end.

(** [Sync._truncate_slots]: advance the slot with no bounds. *)
Definition _truncate_slots : M unit :=
  t <- get_truncate ;;
  if t then emit (EGet (None, None, None, None)) else ret tt.

(** [Sync.pull]; [txmax] and [txid_after] are the values of [txid_current]
    read at the start and at the end, [upto_lsn] the current WAL position. *)
Definition pull (txmax txid_after : Z) (upto_lsn : string) (responses : list (list row))
  : M unit :=
  txmin <- get_checkpoint ;;
  _ <- emit (ESyncTx txmin (Some txmax)) ;;
  _ <- logical_slot_changes (txmin, Some txmax, Some (logical_slot_chunk_size self),
                             Some upto_lsn) responses ;;
  _ <- set_checkpoint (if Z.eqb txmax 0 then txid_after else txmax) ;;
  set_truncate true.

(* ---------------------------------------------------------------- *)
(** *** Consumer *)

(** Views: replace a base table by the node's table. *)
Definition substitute_base_table (p : payload) : payload :=
  fold_left (fun p n =>
               if in_list (table p) (node_base_tables n)
               then mkPayload (tg_op p) (schema p) (node_table n) (old p) (new p) (xmin p)
               else p) (tree_nodes self) p.

(** [defaultdict(list)] grouping by table, in order of first appearance. *)
Fixpoint group_add (g : list (string * list payload)) (p : payload)
  : list (string * list payload) :=
  match g with
  | [] => [(table p, [p])]
  | (t, ps) :: g' =>
      if String.eqb (table p) t then (t, ps ++ [p]) :: g' else (t, ps) :: group_add g' p
  end.

Definition group_by_table (payloads : list payload) : list (string * list payload) :=
  fold_left group_add payloads [].

(** The run-splitting loop of [_on_publish] for mixed batches. *)
Fixpoint publish_runs (acc payloads : list payload) : M unit :=
  match payloads with
  | [] => ret tt
  | p :: rest =>
      let acc := acc ++ [p] in
      match rest with
      | p2 :: _ =>
          if negb (same_run p p2) then _ <- _payloads acc ;; publish_runs [] rest
          else publish_runs acc rest
      | [] => _payloads acc
      end
  end.

Definition is_none {A} (o : option A) : bool :=
  match o with None => true | Some _ => false end.

Definition min_list (z : Z) (l : list Z) : Z := fold_left Z.min l z.

(** The new checkpoint of [_on_publish]:
    [txids = set(xmins); if txids != {None}: min(min(txids), txid_current) - 1].
    [None] means that the write is skipped; [min] of a set holding [None]
    and an integer raises [TypeError], [min(set())] raises [ValueError]. *)
Definition checkpoint_of_xmins (xmins : list (option Z)) (txid_current : Z)
  : result (option Z) :=
  if nonempty xmins && forallb is_none xmins then Ok None
  else if existsb is_none xmins then Err TypeError
  else match flat_map (fun o => match o with Some z => [z] | None => [] end) xmins with
       | [] => Err ValueError
       | z :: zs => Ok (Some (Z.min (min_list z zs) txid_current - 1)%Z)
       end.

(** [Sync._on_publish]; [txid_current] is the value the database reports. *)
Definition _on_publish (payloads : list payload) (txid_current : Z) : M unit :=
  let payloads := map substitute_base_table payloads in
  _ <- (if nonempty payloads && forallb (fun p => String.eqb (tg_op p) tg_op_INSERT) payloads
        then for_ (group_by_table payloads) (fun g => _payloads (snd g))
        else publish_runs [] payloads) ;;
  c <- liftR (checkpoint_of_xmins (map xmin payloads) txid_current) ;;
  match c with
  | Some v => set_checkpoint v
  | None => ret tt
  end.

(** Operations of the running system, with the values the database returns. *)
Inductive op :=
| Pull (txmax txid_after : Z) (upto_lsn : string) (responses : list (list row))
| Publish (payloads : list payload) (txid_current : Z)
| TruncateSlots.

Definition run_op (o : op) : M unit :=
  match o with
  | Pull t1 t2 lsn rs => pull t1 t2 lsn rs
  | Publish ps t => _on_publish ps t
  | TruncateSlots => _truncate_slots
  end.

Fixpoint run (ops : list op) : M unit :=
  match ops with
  | [] => ret tt
  | o :: ops' => _ <- run_op o ;; run ops'
  end.

End Resolver.

End Sync.

(* ------------------------------------------------------------------ *)
(** ** A concrete instance: the tree of §8 of the spec

    Root [book(id)], child [author(id)] joined on [author_id], grandchild
    [country(id)], and a through table [book_author] outside the tree. *)

Module Demo.

Import Sync.
Local Open Scope string_scope.
Local Open Scope list_scope.

Definition book := mkNode "book" "book" "public" ["id"] ["book"] None.
Definition author := mkNode "author" "author" "public" ["id"] ["author"] (Some book).
Definition country := mkNode "country" "country" "public" ["id"] ["country"] (Some author).
Definition book_author :=
  mkNode "book_author" "book_author" "public" ["id"] ["book_author"] (Some book).

Definition get_node (t s : string) : node :=
  if String.eqb t "author" then author
  else if String.eqb t "country" then country
  else if String.eqb t "book_author" then book_author
  else book.

(** The payloads' [data] in the runs below: the row image, [new] when it is
    non-empty and [old] otherwise (a DELETE only carries [old]). *)
Definition payload_data (p : payload) : pydict :=
  match new p with [] => old p | _ => new p end.

(** Foreign keys between a parent and a child: the same column name on both
    sides; with [fk_fails] the preferred lookup raises [ForeignKeyError]. *)
Definition fks (fk_fails : bool) (parent child : node) : result fkmap :=
  if fk_fails then Err ForeignKeyError
  else Ok [(node_name child, [(node_name parent ++ "_id")%string]);
           (node_name parent, [(node_name parent ++ "_id")%string])].

Definition fks_alt (parent child : node) : result fkmap :=
  Ok [(node_name child, [(node_name parent ++ "_id")%string]);
      (node_name parent, [(node_name parent ++ "_id")%string])].

(** The logical decoding of every row: an insert of book 7 at txid 150. *)
Definition parse (s : string) : result payload :=
  Ok (mkPayload "INSERT" "public" "book" [] [("id", PyInt 7)] (Some 150%Z)).

(** No document references anything yet. *)
Definition search (t : string) (f : option fields) : list string := [].

Definition sync_with (routing : option string) (fk_fails : bool) : sync :=
  mkSync "book" routing 8%Z false false "|" 5000%positive 5000
    book ["book"; "author"; "country"] ["public"] [book; author; country]
    get_node payload_data (fun _ _ => []) (fks fk_fails) fks_alt search parse.

Definition demo := sync_with None false.

Definition w0 : world := mkWorld [] (Some 100%Z) false.

Definition ins_book (id : Z) (x : option Z) : payload :=
  mkPayload "INSERT" "public" "book" [] [("id", PyInt id)] x.

End Demo.

(* ================================================================== *)
(** * Theorems *)

(* ------------------------------------------------------------------ *)
(** ** Checkpoint backends *)

Module CheckpointFacts.

(** [int(str(v)) == v] for every integer. *)
Lemma py_int_py_str_int (v : Z) : py_int (py_str_int v) = Some v.
Proof.
  unfold py_int, py_str_int.
  rewrite <- (DecimalZ.of_to v) at 2.
  generalize (Z.to_int v) as d.
  intros [d|d]; destruct d;
    try (rewrite NilZero.isi; [reflexivity | discriminate | discriminate]);
    reflexivity.
Qed.

(** C9: with both backends, [set_value(None)] raises [ValueError] and
    leaves the stored checkpoint (and the file backend's cache) as it was. *)
Theorem set_value_none_rejected :
  (forall st : FileCheckpoint.state,
      FileCheckpoint.set_value st None = (Err ValueError, st)) /\
  (forall st : RedisCheckpoint.state,
      RedisCheckpoint.set_value st None = (Err ValueError, st)).
Proof. split; intros st; reflexivity. Qed.

(** C10: after [FileCheckpoint.set_value(v)], which succeeds for every
    integer [v] (negative ones included), [get_value()] returns [v]. *)
Theorem file_checkpoint_roundtrip (st : FileCheckpoint.state) (v : Z) :
  fst (FileCheckpoint.set_value st (Some v)) = Ok tt /\
  fst (FileCheckpoint.get_value (snd (FileCheckpoint.set_value st (Some v))))
    = Ok (Some v).
Proof.
  split; [reflexivity|].
  unfold FileCheckpoint.get_value; simpl.
  rewrite py_int_py_str_int. reflexivity.
Qed.

End CheckpointFacts.

(* ------------------------------------------------------------------ *)
(** ** Sync name *)

Module SyncNameFacts.

Import SyncName.

Lemma forallb_filter_self (f : Z -> bool) (l : list Z) :
  forallb f (filter f l) = true.
Proof.
  induction l as [|x l IH]; simpl; [reflexivity|].
  destruct (f x) eqn:E; simpl; [rewrite E|]; assumption.
Qed.

Lemma forallb_firstn (f : Z -> bool) (n : nat) (l : list Z) :
  forallb f l = true -> forallb f (firstn n l) = true.
Proof.
  revert l; induction n as [|n IH]; intros [|x l] H; simpl in *; auto.
  apply andb_true_iff in H as [H1 H2]. rewrite H1. simpl. auto.
Qed.

Lemma utf8_len_name_chars (s : pystr) :
  forallb is_name_char s = true -> utf8_len s = length s.
Proof.
  induction s as [|c s IH]; simpl; [reflexivity|].
  intros H; apply andb_true_iff in H as [Hc Hs].
  rewrite (IH Hs).
  unfold is_name_char in Hc.
  assert (Hlt : (c < 128)%Z).
  { repeat (apply orb_true_iff in Hc as [Hc|Hc]);
      repeat (apply andb_true_iff in Hc as [? Hc]);
      try apply Z.eqb_eq in Hc; try apply Z.leb_le in Hc; lia. }
  unfold utf8_width. apply Z.ltb_lt in Hlt. rewrite Hlt. reflexivity.
Qed.

(** C7: for every [(database, index)] and whatever [str.lower] returns, the
    derived name uses only [[0-9A-Za-z_]] and is 1 to 63 bytes long; [name]
    is a function of its inputs only. *)
Theorem sync_name_well_formed (lower : pystr -> pystr) (database index : pystr) :
  forallb is_name_char (name lower database index) = true /\
  (1 <= utf8_len (name lower database index) <= 63)%nat.
Proof.
  unfold name, strip_non_name.
  assert (Hall : forallb is_name_char
                   (firstn 63 (filter is_name_char (lower database ++ [95%Z] ++ index)))
                 = true).
  { apply forallb_firstn, forallb_filter_self. }
  split; [exact Hall|].
  rewrite (utf8_len_name_chars _ Hall), length_firstn.
  assert (Hin : In 95%Z (filter is_name_char (lower database ++ [95%Z] ++ index))).
  { apply filter_In. split; [|reflexivity].
    apply in_or_app; right; left; reflexivity. }
  destruct (filter is_name_char (lower database ++ [95%Z] ++ index)) as [|c l];
    [destruct Hin|].
  change (length (c :: l)) with (S (length l)); lia.
Qed.

End SyncNameFacts.

(* ------------------------------------------------------------------ *)
(** ** Frame lemmas: which calls a computation may add to the trace *)

Module Frame.

Import Sync.

(** [m] only appends events satisfying [P] and leaves the checkpoint and
    the [_truncate] flag alone. *)
Definition frame {A} (P : event -> Prop) (m : M A) : Prop :=
  forall w, exists evs,
    snd (m w) = mkWorld (trace w ++ evs) (checkpoint w) (_truncate w) /\ Forall P evs.

(** As [frame], and at least one event is appended. *)
Definition frame_ne {A} (P : event -> Prop) (m : M A) : Prop :=
  forall w, exists e evs,
    snd (m w) = mkWorld (trace w ++ e :: evs) (checkpoint w) (_truncate w)
    /\ Forall P (e :: evs).

Definition nonslot (e : event) : Prop := is_slot_event e = false.

Lemma world_eta (w : world) : w = mkWorld (trace w ++ []) (checkpoint w) (_truncate w).
Proof. destruct w; simpl; rewrite app_nil_r; reflexivity. Qed.

Section Rules.

Variable P : event -> Prop.

Lemma frame_ret {A} (a : A) : frame P (ret a).
Proof. intros w; exists []; split; [apply world_eta | constructor]. Qed.

Lemma frame_throw {A} (e : exn) : frame P (@throw A e).
Proof. intros w; exists []; split; [apply world_eta | constructor]. Qed.

Lemma frame_liftR {A} (r : result A) : frame P (liftR r).
Proof. intros w; exists []; split; [apply world_eta | constructor]. Qed.

Lemma frame_get_truncate : frame P get_truncate.
Proof. intros w; exists []; split; [apply world_eta | constructor]. Qed.

Lemma frame_emit (e : event) : P e -> frame P (emit e).
Proof. intros He w; exists [e]; split; [reflexivity | auto]. Qed.

Lemma frame_ne_emit (e : event) : P e -> frame_ne P (emit e).
Proof. intros He w; exists e, []; split; [reflexivity | auto]. Qed.

Lemma frame_bind {A B} (m : M A) (k : A -> M B) :
  frame P m -> (forall a, frame P (k a)) -> frame P (bind m k).
Proof.
  intros Hm Hk w. unfold bind.
  destruct (Hm w) as [e1 [H1 F1]].
  destruct (m w) as [[a|e] w1]; simpl in H1; subst w1.
  - destruct (Hk a (mkWorld (trace w ++ e1) (checkpoint w) (_truncate w)))
      as [e2 [H2 F2]].
    exists (e1 ++ e2). rewrite H2; simpl. rewrite app_assoc.
    split; [reflexivity | apply Forall_app; auto].
  - exists e1; auto.
Qed.

Lemma frame_ne_bind {A B} (m : M A) (k : A -> M B) :
  frame_ne P m -> (forall a, frame P (k a)) -> frame_ne P (bind m k).
Proof.
  intros Hm Hk w. unfold bind.
  destruct (Hm w) as [e [e1 [H1 F1]]].
  destruct (m w) as [[a|x] w1]; simpl in H1; subst w1.
  - destruct (Hk a (mkWorld (trace w ++ e :: e1) (checkpoint w) (_truncate w)))
      as [e2 [H2 F2]].
    exists e, (e1 ++ e2). rewrite H2; simpl. rewrite <- app_assoc.
    split; [reflexivity|].
    change (Forall P ((e :: e1) ++ e2)). apply Forall_app; auto.
  - exists e, e1; auto.
Qed.

Lemma frame_except_fk {A} (m h : M A) :
  frame P m -> frame P h -> frame P (except_fk m h).
Proof.
  intros Hm Hh w. unfold except_fk.
  destruct (Hm w) as [e1 [H1 F1]].
  destruct (m w) as [[a|ex] w1]; simpl in H1; subst w1; [exists e1; auto|].
  destruct ex; try (exists e1; auto; fail).
  destruct (Hh (mkWorld (trace w ++ e1) (checkpoint w) (_truncate w))) as [e2 [H2 F2]].
  exists (e1 ++ e2). rewrite H2; simpl. rewrite app_assoc.
  split; [reflexivity | apply Forall_app; auto].
Qed.

Lemma frame_foldM {A B} (f : B -> A -> M B) (l : list A) :
  (forall b x, In x l -> frame P (f b x)) -> forall b, frame P (foldM f b l).
Proof.
  induction l as [|x l IH]; intros Hf b; simpl.
  - apply frame_ret.
  - apply frame_bind; [apply Hf; left; reflexivity|].
    intros b'; apply IH; intros; apply Hf; right; assumption.
Qed.

Lemma frame_for {A} (l : list A) (f : A -> M unit) :
  (forall x, In x l -> frame P (f x)) -> frame P (for_ l f).
Proof.
  induction l as [|x l IH]; intros Hf; simpl.
  - apply frame_ret.
  - apply frame_bind; [apply Hf; left; reflexivity|].
    intros _; apply IH; intros; apply Hf; right; assumption.
Qed.

Lemma frame_ne_for {A} (l : list A) (f : A -> M unit) :
  l <> [] -> (forall x, In x l -> frame_ne P (f x)) -> frame_ne P (for_ l f).
Proof.
  destruct l as [|x l]; [contradiction|]; intros _ Hf; simpl.
  apply frame_ne_bind; [apply Hf; left; reflexivity|].
  intros _; apply frame_for.
  intros y Hy w. destruct (Hf y (or_intror Hy) w) as [e [evs [H F]]].
  exists (e :: evs); auto.
Qed.

Lemma frame_weaken {A} (Q : event -> Prop) (m : M A) :
  (forall e, P e -> Q e) -> frame P m -> frame Q m.
Proof.
  intros HPQ Hm w. destruct (Hm w) as [evs [H F]].
  exists evs; split; [exact H | eapply Forall_impl; eauto].
Qed.

End Rules.

Create HintDb frame.
#[export] Hint Resolve frame_ret frame_throw frame_liftR frame_get_truncate : frame.

(** Take a computation apart, one combinator at a time. *)
Ltac frame_step :=
  match goal with
  | |- frame _ (bind _ _) => apply frame_bind; [|intro]
  | |- frame _ (foldM _ _ _) => apply frame_foldM; intros ? ? ?
  | |- frame _ (for_ _ _) => apply frame_for; intros ? ?
  | |- frame _ (except_fk _ _) => apply frame_except_fk
  | |- frame _ (emit _) => apply frame_emit; reflexivity
  | |- frame _ (ret _) => apply frame_ret
  | |- frame _ (throw _) => apply frame_throw
  | |- frame _ (liftR _) => apply frame_liftR
  | |- frame _ (if ?b then _ else _) => destruct b
  | |- frame _ (match ?x with _ => _ end) => destruct x
  | |- frame _ (let '(_, _) := ?x in _) => destruct x
  | |- frame _ _ => progress (cbv beta zeta)
  end.

Ltac frame_auto := repeat (frame_step || eauto with frame).

Section Resolver.

Variable self : sync.

Lemma frame_search_ t f : frame nonslot (search_ self t f).
Proof. unfold search_; frame_auto. Qed.

Lemma frame_get_fks_fallback parent child : frame nonslot (get_fks_fallback self parent child).
Proof. unfold get_fks_fallback, get_fks, get_fks_alt; frame_auto. Qed.

Lemma frame_get_fks parent child : frame nonslot (get_fks self parent child).
Proof. unfold get_fks; frame_auto. Qed.

Lemma frame_append_doc_ids fl ids : frame nonslot (append_doc_ids self fl ids).
Proof. unfold append_doc_ids; frame_auto. Qed.

#[local] Hint Resolve frame_search_ frame_get_fks_fallback frame_get_fks
  frame_append_doc_ids : frame.

Lemma frame_rpk n p fl : frame nonslot (_root_primary_key_resolver self n p fl).
Proof. unfold _root_primary_key_resolver; frame_auto. Qed.

Lemma frame_rfk n p fks fl : frame nonslot (_root_foreign_key_resolver self n p fks fl).
Proof. unfold _root_foreign_key_resolver; frame_auto. Qed.

Lemma frame_through n p fl : frame nonslot (_through_node_resolver self n p fl).
Proof. unfold _through_node_resolver; frame_auto. Qed.

#[local] Hint Resolve frame_rpk frame_rfk frame_through : frame.

Lemma frame_insert_op n fs ps : frame nonslot (_insert_op self n fs ps).
Proof. unfold _insert_op; frame_auto. Qed.

Lemma frame_update_op n fs ps : frame nonslot (_update_op self n fs ps).
Proof. unfold _update_op; frame_auto. Qed.

Lemma frame_delete_op n fs ps : frame nonslot (_delete_op self n fs ps).
Proof. unfold _delete_op; frame_auto. Qed.

Lemma frame_truncate_op n fs : frame nonslot (_truncate_op self n fs).
Proof. unfold _truncate_op; frame_auto. Qed.

#[local] Hint Resolve frame_insert_op frame_update_op frame_delete_op
  frame_truncate_op : frame.

Lemma frame_sync_filters n fs : frame nonslot (sync_filters self n fs).
Proof. unfold sync_filters, execute_filters; frame_auto. Qed.

Lemma frame_resolve n p ps : frame nonslot (resolve self n p ps).
Proof. unfold resolve; frame_auto. Qed.

#[local] Hint Resolve frame_sync_filters frame_resolve : frame.

Lemma frame_payloads ps : frame nonslot (_payloads self ps).
Proof. unfold _payloads; frame_auto. Qed.

#[local] Hint Resolve frame_payloads : frame.

Lemma frame_process_rows ps rows : frame nonslot (process_rows self ps rows).
Proof.
  revert ps; induction rows as [|r rows IH]; intros ps; simpl; frame_auto.
Qed.

End Resolver.

End Frame.

(* ------------------------------------------------------------------ *)
(** ** Filter execution *)

Module FilterFacts.

Import Sync Frame.

Lemma fs_get_fs_set (fs : filterset) (k k' : string) (v : list pydict) :
  fs_get (fs_set fs k v) k' = if String.eqb k' k then Some v else fs_get fs k'.
Proof.
  induction fs as [|[k0 v0] fs IH]; simpl.
  - reflexivity.
  - destruct (String.eqb k k0) eqn:E1; simpl.
    + apply String.eqb_eq in E1; subst k0. destruct (String.eqb k' k); reflexivity.
    + rewrite IH. destruct (String.eqb k' k0) eqn:E2, (String.eqb k' k) eqn:E3; auto.
      apply String.eqb_eq in E2, E3; subst. rewrite String.eqb_refl in E1; discriminate.
Qed.

Lemma fs_get_list_fs_set (fs : filterset) (k k' : string) (v : list pydict) :
  fs_get_list (fs_set fs k v) k' = if String.eqb k' k then v else fs_get_list fs k'.
Proof. unfold fs_get_list; rewrite fs_get_fs_set; destruct (String.eqb k' k); auto. Qed.

Lemma fs_any_of_slot (fs : filterset) (k : string) :
  nonempty (fs_get_list fs k) = true -> fs_any fs = true.
Proof.
  unfold fs_get_list; induction fs as [|[k0 v0] fs IH]; simpl; [discriminate|].
  destruct (String.eqb k k0); [destruct v0; simpl; [discriminate|reflexivity]|].
  intros H; rewrite (IH H); apply orb_true_r.
Qed.

Lemma chunks_go_elems {A} (fuel size : nat) (l : list A) (c : list A) :
  (0 < size)%nat -> In c (chunks_go fuel size l) -> nonempty c = true.
Proof.
  revert l; induction fuel as [|fuel IH]; intros l Hs Hin; simpl in Hin; [destruct Hin|].
  destruct l as [|x l']; [destruct Hin|].
  destruct Hin as [<-|Hin]; [destruct size; [lia|reflexivity]|].
  eapply IH; eauto.
Qed.

Lemma chunks_elems {A} (l c : list A) (size : positive) :
  In c (chunks l size) -> nonempty c = true.
Proof. apply chunks_go_elems; apply Pos2Nat.is_pos. Qed.

Lemma chunks_nonempty {A} (l : list A) (size : positive) :
  nonempty l = true -> chunks l size <> [].
Proof. destruct l; simpl; [discriminate|]. intros _; discriminate. Qed.

Lemma chunks_empty {A} (l : list A) (size : positive) :
  nonempty l = false -> chunks l size = [].
Proof. destruct l; simpl; [reflexivity|discriminate]. Qed.

(** A call of [self.sync] whose root slot is a non-empty list. *)
Definition root_sync_call (self : sync) (e : event) : Prop :=
  exists f, e = ESync f /\ nonempty (fs_get_list f (root_table self)) = true.

Lemma execute_filters_calls (self : sync) (n : node) (filters : filterset) :
  nonempty (fs_get_list filters (root_table self)) = true ->
  frame_ne (root_sync_call self) (execute_filters self n filters).
Proof.
  intros Hroot. unfold execute_filters.
  apply frame_ne_for; [apply chunks_nonempty; exact Hroot|].
  intros l1 Hl1. pose proof (chunks_elems _ _ _ Hl1) as Ne1.
  destruct (nonempty (fs_get_list filters (node_table n))) eqn:Hn.
  - apply frame_ne_for; [apply chunks_nonempty; exact Hn|].
    intros l2 Hl2. pose proof (chunks_elems _ _ _ Hl2) as Ne2.
    destruct (node_parent n) as [parent|].
    + destruct (nonempty (fs_get_list filters (node_table parent))) eqn:Hp.
      * apply frame_ne_for; [apply chunks_nonempty; exact Hp|].
        intros l3 Hl3. pose proof (chunks_elems _ _ _ Hl3) as Ne3.
        apply frame_ne_emit. eexists; split; [reflexivity|].
        rewrite !fs_get_list_fs_set.
        destruct (String.eqb _ (node_table parent)); [exact Ne3|].
        destruct (String.eqb _ (node_table n)); [exact Ne2|].
        rewrite String.eqb_refl; exact Ne1.
      * apply frame_ne_emit. eexists; split; [reflexivity|].
        rewrite !fs_get_list_fs_set.
        destruct (String.eqb _ (node_table n)); [exact Ne2|].
        rewrite String.eqb_refl; exact Ne1.
    + apply frame_ne_emit. eexists; split; [reflexivity|].
      rewrite !fs_get_list_fs_set.
      destruct (String.eqb _ (node_table n)); [exact Ne2|].
      rewrite String.eqb_refl; exact Ne1.
  - apply frame_ne_emit. eexists; split; [reflexivity|].
    rewrite fs_get_list_fs_set, String.eqb_refl; exact Ne1.
Qed.

(** C5 (as amended): the filter execution of [_payloads] calls [sync()]
    only with a filter set whose root slot is a non-empty chunk, so never
    with an entirely empty one; and it calls [sync()] at least once exactly
    when the root-table slot of the resolver's filter set is non-empty, so a
    non-empty node or parent slot next to an empty root slot triggers no
    call at all. *)
Theorem sync_calls_follow_root_slot (self : sync) (n : node) (filters : filterset)
  (w : world) :
  exists evs,
    snd (sync_filters self n filters w)
      = mkWorld (trace w ++ evs) (checkpoint w) (_truncate w) /\
    (forall e, In e evs -> root_sync_call self e) /\
    (evs <> [] <-> nonempty (fs_get_list filters (root_table self)) = true).
Proof.
  destruct (nonempty (fs_get_list filters (root_table self))) eqn:Hroot.
  - unfold sync_filters. rewrite (fs_any_of_slot _ _ Hroot).
    destruct (execute_filters_calls self n filters Hroot w) as [e [evs [H F]]].
    exists (e :: evs). split; [exact H|]. split.
    + intros x Hx. rewrite Forall_forall in F. apply F, Hx.
    + split; [reflexivity | discriminate].
  - exists []. split; [|split; [intros e []| split; [intros H; contradiction H; reflexivity|discriminate]]].
    unfold sync_filters. destruct (fs_any filters).
    + unfold execute_filters. rewrite (chunks_empty _ _ Hroot). simpl. apply world_eta.
    + simpl. apply world_eta.
Qed.

End FilterFacts.

(* ------------------------------------------------------------------ *)
(** ** Logical replication slot *)

Module SlotFacts.

Import Sync Frame.

(** Every advance ([EGet]) in a sequence of slot calls comes right after a
    peek with the same bounds. *)
Definition gets_follow_peeks (sl : list event) : Prop :=
  forall i b, nth_error sl i = Some (EGet b) ->
              exists j, i = S j /\ nth_error sl j = Some (EPeek b).

(** The slot calls of one drain: peek/advance pairs, then a last peek. *)
Inductive peek_get_seq (b : bounds) : list event -> Prop :=
| pgs_last : peek_get_seq b [EPeek b]
| pgs_pair l : peek_get_seq b l -> peek_get_seq b (EPeek b :: EGet b :: l).

Lemma peek_get_seq_follow b l : peek_get_seq b l -> gets_follow_peeks l.
Proof.
  induction 1 as [|l H IH]; intros i b' Hi.
  - destruct i as [|[|i]]; simpl in Hi; try discriminate.
  - destruct i as [|[|i]]; simpl in Hi.
    + discriminate.
    + injection Hi as <-. exists 0%nat; auto.
    + destruct (IH i b' Hi) as [j [-> Hj]]. exists (S (S j)); auto.
Qed.

Lemma filter_nonslot (evs : list event) :
  Forall nonslot evs -> filter is_slot_event evs = [].
Proof.
  induction 1 as [|e evs He _ IH]; simpl; [reflexivity|].
  unfold nonslot in He; rewrite He; exact IH.
Qed.

Lemma logical_slot_changes_seq (self : sync) (b : bounds) (responses : list (list row))
  (w : world) :
  exists evs,
    snd (logical_slot_changes self b responses w)
      = mkWorld (trace w ++ evs) (checkpoint w) (_truncate w) /\
    peek_get_seq b (filter is_slot_event evs).
Proof.
  revert w; induction responses as [|changes responses IH]; intros w; simpl.
  - exists [EPeek b]; split; [reflexivity | constructor].
  - unfold bind at 1; simpl.
    destruct (nonempty changes).
    2:{ exists [EPeek b]; split; [reflexivity | constructor]. }
    simpl.
    set (w1 := mkWorld (trace w ++ [EPeek b]) (checkpoint w) (_truncate w)).
    set (rows := filter _ changes).
    destruct (frame_process_rows self [] rows w1) as [e1 [H1 F1]].
    unfold bind.
    destruct (process_rows self [] rows w1) as [[u|ex] w2]; simpl in H1; subst w2.
    + simpl. set (w3 := mkWorld _ _ _).
      destruct (IH w3) as [e2 [H2 S2]].
      exists (EPeek b :: e1 ++ EGet b :: e2). split.
      * rewrite H2. subst w3 w1; simpl. rewrite <- !app_assoc. reflexivity.
      * simpl. rewrite filter_app, (filter_nonslot _ F1). simpl.
        constructor; exact S2.
    + exists (EPeek b :: e1). split.
      * subst w1; simpl. rewrite <- app_assoc. reflexivity.
      * simpl. rewrite (filter_nonslot _ F1). constructor.
Qed.

(** C6 (as amended), the drain loop: each advance that
    [logical_slot_changes] makes uses exactly the bounds
    [(txmin, txmax, upto_nchanges, upto_lsn)] of the peek right before it. *)
Theorem drain_advance_matches_peek (self : sync) (b : bounds)
  (responses : list (list row)) (w : world) :
  exists evs,
    trace (snd (logical_slot_changes self b responses w)) = trace w ++ evs /\
    gets_follow_peeks (filter is_slot_event evs).
Proof.
  destruct (logical_slot_changes_seq self b responses w) as [evs [H S]].
  exists evs. rewrite H. split; [reflexivity|].
  apply peek_get_seq_follow with b; exact S.
Qed.

End SlotFacts.

(* ------------------------------------------------------------------ *)
(** ** The stored checkpoint *)

Module CheckpointFlow.

Import Sync.

Lemma bind_ok {A B} (m : M A) (k : A -> M B) (w : world) (b : B) :
  fst (bind m k w) = Ok b ->
  exists a w1, m w = (Ok a, w1) /\ bind m k w = k a w1.
Proof.
  unfold bind. destruct (m w) as [[a|e] w1]; simpl; [|discriminate].
  intros _. exists a, w1. auto.
Qed.

Lemma xmin_substitute_base_table (self : sync) (p : payload) :
  xmin (substitute_base_table self p) = xmin p.
Proof.
  unfold substitute_base_table. generalize (tree_nodes self) as ns.
  intros ns; revert p; induction ns as [|n ns IH]; intros p; simpl; [reflexivity|].
  rewrite IH. destruct (in_list _ _); reflexivity.
Qed.

Lemma checkpoint_of_some (z : Z) (zs : list Z) (txid : Z) :
  checkpoint_of_xmins (map Some (z :: zs)) txid = Ok (Some (Z.min (min_list z zs) txid - 1)%Z).
Proof.
  unfold checkpoint_of_xmins. simpl.
  assert (E : existsb is_none (map Some zs) = false).
  { induction zs; simpl; auto. }
  assert (F : flat_map (fun o => match o with Some z => [z] | None => [] end) (map Some zs) = zs).
  { clear E. induction zs as [|a zs IH]; simpl; [reflexivity|]. rewrite IH; reflexivity. }
  rewrite E, F. reflexivity.
Qed.

(** C4 (as amended): the checkpoint is overwritten, never compared with its
    previous value.  A batch that [_on_publish] consumes without an error,
    all of whose xmins are integers, stores [min(min(xmins), txid) - 1]; a
    [pull] that completes stores [txmax], or the second [txid_current] when
    [txmax] is 0.  Both values are independent of the checkpoint stored
    before, so it decreases whenever they are below it. *)
Theorem checkpoint_overwritten (self : sync)
  (ps : list payload) (z : Z) (zs : list Z) (txid : Z) (w : world)
  (txmax txid_after : Z) (lsn : string) (rs : list (list row)) (w' : world) :
  map xmin ps = map Some (z :: zs) ->
  fst (_on_publish self ps txid w) = Ok tt ->
  fst (pull self txmax txid_after lsn rs w') = Ok tt ->
  checkpoint (snd (_on_publish self ps txid w)) = Some (Z.min (min_list z zs) txid - 1)%Z /\
  checkpoint (snd (pull self txmax txid_after lsn rs w'))
    = Some (if Z.eqb txmax 0 then txid_after else txmax).
Proof.
  intros Hx Hpub Hpull. split.
  - unfold _on_publish in *.
    destruct (bind_ok _ _ _ _ Hpub) as [u [w1 [H1 ->]]].
    unfold bind, liftR.
    rewrite map_map.
    rewrite (map_ext _ xmin (xmin_substitute_base_table self)), Hx, checkpoint_of_some.
    reflexivity.
  - unfold pull in *.
    destruct (bind_ok _ _ _ _ Hpull) as [c [w1 [_ E1]]]. rewrite E1 in *.
    destruct (bind_ok _ _ _ _ Hpull) as [u1 [w2 [_ E2]]]. rewrite E2 in *.
    destruct (bind_ok _ _ _ _ Hpull) as [u2 [w3 [_ E3]]]. rewrite E3 in *.
    reflexivity.
Qed.

End CheckpointFlow.

(* ------------------------------------------------------------------ *)
(** ** Deletes on the root table *)

Module RootDelete.

Import Sync.

(** The bulk-delete op the spec describes for a payload of the root table:
    [_id] is [PRIMARY_KEY_DELIMITER.join] of the payload's root primary-key
    values, with [_routing] read from the payload when routing is set. *)
Definition expected_delete_doc (self : sync) (p : payload) : doc :=
  mkDoc (String.concat (delimiter self)
           (map (fun k => py_str (dict_get_none (data self p) k)) (root_pks self)))
        (index self) "delete"
        (match routing self with
         | Some col => if routing_set self then Some (dict_get_none (data self p) col) else None
         | None => None
         end)
        (doc_type self).

(** The routing column is present in the payload when routing is set. *)
Definition routing_ok (self : sync) (p : payload) : bool :=
  match routing self with
  | Some col => negb (routing_set self) || has_keys (data self p) [col]
  | None => true
  end.

Lemma map_res_dict_index (d : pydict) (ks : list string) :
  has_keys d ks = true -> map_res (dict_index d) ks = Ok (map (dict_get_none d) ks).
Proof.
  unfold has_keys, dict_index, dict_get_none.
  induction ks as [|k ks IH]; simpl; [reflexivity|].
  destruct (dict_get d k); simpl; [|discriminate].
  intros H; rewrite (IH H); reflexivity.
Qed.

Lemma in_last {A} (l : list A) (d : A) : In (last l d) (d :: l).
Proof.
  revert d; induction l as [|x l IH]; intros d; simpl; [auto|].
  destruct l as [|y l']; [auto|].
  destruct (IH d) as [E|E]; [rewrite <- E; left; reflexivity|].
  right; right; exact E.
Qed.

Lemma delete_op_root (self : sync) (n : node) (filters : filterset) (ps : list payload)
  (w : world) :
  node_parent n = None ->
  root_pks self <> [] ->
  Forall (fun p => has_keys (data self p) (root_pks self) = true /\ routing_ok self p = true) ps ->
  _delete_op self n filters ps w =
    (Ok filters,
     mkWorld (trace w ++ (if nonempty ps
                          then [EBulk (map (expected_delete_doc self) ps)
                                  (if use_async self then Some false else None)]
                          else []))
             (checkpoint w) (_truncate w)).
Proof.
  intros Hn Hpks Hall. unfold _delete_op. rewrite Hn.
  match goal with |- bind (foldM ?f [] ps) _ w = _ =>
    assert (Hstep : forall docs p w1,
              has_keys (data self p) (root_pks self) = true /\ routing_ok self p = true ->
              f docs p w1 = (Ok (docs ++ [expected_delete_doc self p]), w1));
    [|assert (Hf : forall docs w1, foldM f docs ps w1
                     = (Ok (docs ++ map (expected_delete_doc self) ps), w1))] end.
  { intros docs p w1 [Hk Hr]. cbv beta. unfold bind, liftR, ret, get_doc_id.
    rewrite (map_res_dict_index _ _ Hk).
    destruct (map (dict_get_none (data self p)) (root_pks self)) eqn:Em.
    { apply map_eq_nil in Em; contradiction. }
    rewrite <- Em, map_map. unfold expected_delete_doc, routing_ok in *.
    destruct (routing self) as [col|]; [|reflexivity].
    destruct (routing_set self); simpl in Hr; [|reflexivity].
    unfold has_keys in Hr; simpl in Hr. unfold dict_index, dict_get_none.
    destruct (dict_get (data self p) col); [reflexivity|discriminate]. }
  { clear Hn. induction Hall as [|p ps Hp _ IH]; intros docs w1; simpl.
    - rewrite app_nil_r; reflexivity.
    - unfold bind at 1. rewrite (Hstep _ _ _ Hp), IH, <- app_assoc. reflexivity. }
  unfold bind at 1. rewrite Hf. simpl.
  destruct ps as [|p ps]; simpl.
  - rewrite app_nil_r. destruct w; reflexivity.
  - reflexivity.
Qed.

(** C1 (as amended): a run of DELETE payloads on the root table, each of
    which carries the root primary keys and, when routing is set, the
    routing column, makes [_payloads] issue exactly one bulk call holding
    one delete op per payload, with [_id] the delimiter-join of its root
    primary-key values; the resolver's filter set has every slot empty and
    no [sync()] call follows.  (A payload without the routing column raises
    [KeyError] instead, and nothing is deleted.) *)
Theorem root_delete_bulk (self : sync) (p0 : payload) (ps : list payload) (w : world) :
  node_parent (root self) = None ->
  root_pks self <> [] ->
  table p0 = root_table self ->
  in_list (root_table self) (tree_tables self) = true ->
  in_list (schema p0) (tree_schemas self) = true ->
  get_node self (root_table self) (schema p0) = root self ->
  Forall (fun p => tg_op p = tg_op_DELETE) (p0 :: ps) ->
  Forall (fun p => has_keys (data self p) (root_pks self) = true /\ routing_ok self p = true)
    (p0 :: ps) ->
  fst (resolve self (root self) (last (p0 :: ps) p0) (p0 :: ps) w)
    = Ok (initial_filters self (root self)) /\
  fs_any (initial_filters self (root self)) = false /\
  _payloads self (p0 :: ps) w =
    (Ok tt,
     mkWorld (trace w ++ [EBulk (map (expected_delete_doc self) (p0 :: ps))
                                (if use_async self then Some false else None)])
             (checkpoint w) (_truncate w)).
Proof.
  intros Hroot Hpks Htab Htt Hts Hget Hop Hall.
  assert (Hlast : tg_op (last (p0 :: ps) p0) = tg_op_DELETE).
  { rewrite Forall_forall in Hop.
    destruct (in_last (p0 :: ps) p0) as [E|E]; [rewrite <- E|]; apply Hop; [left|]; auto. }
  assert (Hres : forall w1, resolve self (root self) (last (p0 :: ps) p0) (p0 :: ps) w1 =
     (Ok (initial_filters self (root self)),
      mkWorld (trace w1 ++ [EBulk (map (expected_delete_doc self) (p0 :: ps))
                                 (if use_async self then Some false else None)])
              (checkpoint w1) (_truncate w1))).
  { intros w1. unfold resolve. rewrite Hlast. simpl.
    unfold bind at 1 2 3, ret. rewrite (delete_op_root _ _ _ _ _ Hroot Hpks Hall). reflexivity. }
  assert (Hany : fs_any (initial_filters self (root self)) = false).
  { unfold initial_filters. rewrite Hroot. simpl. rewrite String.eqb_refl. reflexivity. }
  split; [rewrite Hres; reflexivity|]. split; [exact Hany|].
  assert (Hop0 : tg_op p0 = tg_op_DELETE) by (inversion Hop; assumption).
  unfold _payloads. rewrite Hop0, Htab, Htt, Hts.
  change (in_list tg_op_DELETE TG_OP) with true. cbn [negb orb].
  rewrite Hget.
  assert (Hchk : forall w1, for_ (p0 :: ps) (fun p =>
      if nonempty (data self p) && negb (has_keys (data self p) (node_primary_keys (root self)))
      then throw RuntimeError else ret tt) w1 = (Ok tt, w1)).
  { clear - Hall. induction Hall as [|p ps' [Hk _] _ IH]; intros w1; [reflexivity|].
    simpl. unfold root_pks in Hk. rewrite Hk, andb_false_r. apply IH. }
  unfold bind at 1. rewrite Hchk. unfold bind. rewrite Hres.
  unfold sync_filters. rewrite Hany. reflexivity.
Qed.

End RootDelete.

(* ------------------------------------------------------------------ *)
(** ** Concrete runs *)

Module Runs.

Import Sync Demo Frame CheckpointFlow RootDelete SlotFacts.
Local Open Scope string_scope.
Local Open Scope list_scope.

Definition del_book (id : Z) : payload :=
  mkPayload "DELETE" "public" "book" [("id", PyInt id)] [] (Some 150%Z).

Definition upd_book (old_id new_id : Z) : payload :=
  mkPayload "UPDATE" "public" "book" [("id", PyInt old_id)] [("id", PyInt new_id)] (Some 150%Z).

Definition truncate_book : payload :=
  mkPayload "TRUNCATE" "public" "book" [] [] None.

Definition ins_country : payload :=
  mkPayload "INSERT" "public" "country" [] [("id", PyInt 1); ("author_id", PyInt 3)]
    (Some 150%Z).

Definition ins_book_author : payload :=
  mkPayload "INSERT" "public" "book_author" [] [("id", PyInt 1); ("book_id", PyInt 7)]
    (Some 150%Z).

Definition ins_author : payload :=
  mkPayload "INSERT" "public" "author" [] [("id", PyInt 3); ("book_id", PyInt 7)]
    (Some 150%Z).

Definition upd_author : payload :=
  mkPayload "UPDATE" "public" "author" [] [("id", PyInt 3); ("book_id", PyInt 7)]
    (Some 150%Z).

(** The bounds of the peeks in the pull below. *)
Definition b200 : bounds := (Some 100%Z, Some 200%Z, Some 5000%nat, Some "0/1").

(** The routing column of the root table. *)
Definition routed_by_author := sync_with (Some "author_id") false.
Definition routed_by_id := sync_with (Some "id") false.

(** The preferred foreign-key lookup raises [ForeignKeyError]. *)
Definition fk_broken := sync_with None true.

(** Witness of C1: deleting book 8 without routing. *)
Lemma root_delete_bulk_witness :
  fst (resolve demo (root demo) (last [del_book 8] (del_book 8)) [del_book 8] w0)
    = Ok (initial_filters demo (root demo)) /\
  fs_any (initial_filters demo (root demo)) = false /\
  _payloads demo [del_book 8] w0 =
    (Ok tt,
     mkWorld (trace w0 ++ [EBulk (map (expected_delete_doc demo) [del_book 8])
                                 (if use_async demo then Some false else None)])
             (checkpoint w0) (_truncate w0)).
Proof.
  apply (root_delete_bulk demo (del_book 8) [] w0);
    [reflexivity | discriminate | reflexivity | reflexivity | reflexivity | reflexivity
    | repeat constructor | repeat constructor].
Defined.

(** C1, counterexample: with routing on [author_id], a DELETE of book 8
    whose old row holds only its primary key raises [KeyError] at
    [payload.data[self.routing]]; no bulk-delete op is emitted. *)
Lemma root_delete_routing_keyerror :
  _payloads routed_by_author [del_book 8] w0 = (Err KeyError, w0) /\
  trace w0 = [].
Proof. split; vm_compute; reflexivity. Qed.

(** C2: an UPDATE of book 7 to primary key 8.  Without routing the old
    document is deleted and the new key pushed into the root slot; with
    routing set, [old_values[self.routing]] indexes a list with a string
    and raises [TypeError]: neither the delete of the old document nor the
    sync of the new one happens. *)
Theorem root_update_routing_typeerror :
  _payloads demo [upd_book 7 8] w0 =
    (Ok tt, mkWorld [EBulk [mkDoc "7" "book" "delete" None None] None;
                     ESync [("book", [[("id", PyInt 8)]])]] (Some 100%Z) false) /\
  _payloads routed_by_id [upd_book 7 8] w0 = (Err TypeError, w0).
Proof. split; vm_compute; reflexivity. Qed.

(** C3: a batch holding a TRUNCATE of book (xmin [None]) and an INSERT
    with xmin 121, consumed at txid 150: [min] of [{None, 121}] raises
    [TypeError], so although an xmin is not null the checkpoint keeps its
    old value 100 instead of becoming [min(121, 150) - 1 = 120], which the
    INSERT alone does store. *)
Theorem mixed_truncate_batch_typeerror :
  checkpoint_of_xmins [None; Some 121%Z] 150 = Err TypeError /\
  _on_publish demo [truncate_book; ins_book 7 (Some 121%Z)] 150 w0 =
    (Err TypeError, mkWorld [ESearch "book" None; ESync [("book", [[("id", PyInt 7)]])]]
                            (Some 100%Z) false) /\
  checkpoint (snd (_on_publish demo [ins_book 7 (Some 121%Z)] 150 w0)) = Some 120%Z.
Proof. split; [|split]; vm_compute; reflexivity. Qed.

(** Witness of C4: one pull to txid 200, then a batch with xmin 150
    consumed at txid 201. *)
Lemma checkpoint_overwritten_witness :
  checkpoint (snd (_on_publish demo [ins_book 7 (Some 150%Z)] 201 w0))
    = Some (Z.min (min_list 150 []) 201 - 1)%Z /\
  checkpoint (snd (pull demo 200 200 "0/1" [] w0))
    = Some (if Z.eqb 200 0 then 200 else 200)%Z.
Proof.
  apply (checkpoint_overwritten demo [ins_book 7 (Some 150%Z)] 150 [] 201 w0
           200 200 "0/1" [] w0); vm_compute; reflexivity.
Defined.

(** C4, counterexample: a pull stores 200, the batch consumed next has
    xmin 150 and stores 149. *)
Lemma checkpoint_decreases :
  checkpoint (snd (run demo [Pull 200 200 "0/1" []] w0)) = Some 200%Z /\
  run demo [Pull 200 200 "0/1" []; Publish [ins_book 7 (Some 150%Z)] 201] w0 =
    (Ok tt, mkWorld [ESyncTx (Some 100%Z) (Some 200%Z); EPeek b200;
                     ESync [("book", [[("id", PyInt 7)]])]] (Some 149%Z) true).
Proof. split; vm_compute; reflexivity. Qed.

(** C5, counterexample: an INSERT into [country] (child of [author]) whose
    author no document references fills the [author] slot of the filter set
    but leaves the root slot empty; [_payloads] then makes no [sync()]
    call although a slot is non-empty. *)
Lemma child_slot_without_sync :
  resolve demo country ins_country [ins_country] w0 =
    (Ok [("country", []); ("book", []); ("author", [[("author_id", PyInt 3)]])],
     mkWorld [EGetForeignKeys "author" "country";
              ESearch "author" (Some [("id", [PyInt 3])])] (Some 100%Z) false) /\
  _payloads demo [ins_country] w0 =
    (Ok tt, mkWorld [EGetForeignKeys "author" "country";
                     ESearch "author" (Some [("id", [PyInt 3])])] (Some 100%Z) false).
Proof. split; vm_compute; reflexivity. Qed.

(** C6, counterexample: after a pull, the slot-truncation worker advances
    the slot with no bounds, and the call before it is a peek with the
    pull's bounds. *)
Lemma truncate_slots_advance_without_peek :
  filter is_slot_event (trace (snd (run demo [Pull 200 200 "0/1" [[mkRow 150 "x"]];
                                              TruncateSlots] w0)))
    = [EPeek b200; EGet b200; EPeek b200; EGet (None, None, None, None)] /\
  ~ gets_follow_peeks (filter is_slot_event
        (trace (snd (run demo [Pull 200 200 "0/1" [[mkRow 150 "x"]]; TruncateSlots] w0)))).
Proof.
  split; [vm_compute; reflexivity|].
  intros H. destruct (H 3%nat (None, None, None, None)) as [j [Hj Hn]].
  - vm_compute; reflexivity.
  - injection Hj as <-. vm_compute in Hn. discriminate.
Qed.

(** When the preferred lookup raises [ForeignKeyError], an INSERT into
    [author] (a tree node) and an UPDATE of it fall back to
    [_get_foreign_keys]; the through-table branch of [_insert_op], called
    here directly with [book_author] (outside [tree.tables]), propagates the
    error with no fallback.  [_payloads] drops [book_author] payloads, so it
    does not take that branch on this tree. *)
Theorem through_table_no_fk_fallback :
  _insert_op fk_broken book_author [] [ins_book_author] w0 =
    (Err ForeignKeyError, mkWorld [EGetForeignKeys "book" "book_author"] (Some 100%Z) false) /\
  trace (snd (_insert_op fk_broken author (initial_filters fk_broken author) [ins_author] w0))
    = [EGetForeignKeys "book" "author"; EGetForeignKeysAlt "book" "author";
       ESearch "book" (Some [("id", [PyInt 7])])] /\
  trace (snd (_update_op fk_broken author (initial_filters fk_broken author) [upd_author] w0))
    = [ESearch "author" (Some [("id", [PyInt 3])]); EGetForeignKeys "book" "author";
       EGetForeignKeysAlt "book" "author"; ESearch "book" (Some [("id", [PyInt 7])])].
Proof. split; [|split]; vm_compute; reflexivity. Qed.

End Runs.

(* ------------------------------------------------------------------ *)
(** ** Foreign-key lookups: the fallback *)

Module FkFallback.

Import Sync.

(** Every preferred lookup [get_foreign_keys(parent, child)] in [evs] is
    immediately followed by the alternative lookup [_get_foreign_keys] of
    the same pair. *)
Fixpoint fk_paired (evs : list event) : bool :=
  match evs with
  | [] => true
  | EGetForeignKeys a b :: rest =>
      match rest with
      | EGetForeignKeysAlt a' b' :: rest' =>
          String.eqb a a' && String.eqb b b' && fk_paired rest'
      | _ => false
      end
  | _ :: rest => fk_paired rest
  end.

Lemma fk_paired_app (xs ys : list event) :
  fk_paired xs = true -> fk_paired ys = true -> fk_paired (xs ++ ys) = true.
Proof.
  revert xs. fix IH 1. intros [|e xs] Hx Hy; [exact Hy|].
  destruct e as [a b|a b|t f|ds r|fs|t1 t2|b|b]; simpl in *;
    try (apply IH; assumption).
  destruct xs as [|[a' b'| | | | | | |] xs]; try discriminate.
  simpl. apply andb_true_iff in Hx as [Hab Hx].
  rewrite Hab. simpl. apply IH; assumption.
Qed.

(** Results that are never [ForeignKeyError]. *)
Lemma dict_index_nofk d k : dict_index d k <> Err ForeignKeyError.
Proof. unfold dict_index; destruct (dict_get d k); discriminate. Qed.

Lemma fk_index_nofk m k : fk_index m k <> Err ForeignKeyError.
Proof. unfold fk_index; destruct (fk_get m k); discriminate. Qed.

Lemma fs_append_nofk fs k x : fs_append fs k x <> Err ForeignKeyError.
Proof. unfold fs_append; destruct (fs_get fs k); discriminate. Qed.

Lemma fs_extend_nofk fs k xs : fs_extend fs k xs <> Err ForeignKeyError.
Proof. unfold fs_extend; destruct (fs_get fs k); discriminate. Qed.

Lemma map_res_index_nofk d ks : map_res (dict_index d) ks <> Err ForeignKeyError.
Proof.
  induction ks as [|k ks IH]; simpl; [discriminate|].
  destruct (dict_index d k) eqn:E; [|intros H; injection H as ->; exact (dict_index_nofk _ _ E)].
  destruct (map_res (dict_index d) ks); [discriminate | exact IH].
Qed.

Lemma where_from_nofk ks ps acc : where_from ks ps acc <> Err ForeignKeyError.
Proof.
  revert ps acc; induction ks as [|k ks IH]; intros [|p ps] acc; simpl;
    try discriminate; apply IH.
Qed.

Lemma get_doc_id_nofk self vs t : get_doc_id self vs t <> Err ForeignKeyError.
Proof. unfold get_doc_id; destruct vs; discriminate. Qed.

Lemma where_of_doc_id_nofk self id : where_of_doc_id self id <> Err ForeignKeyError.
Proof.
  unfold where_of_doc_id, py_split. destruct (String.eqb (delimiter self) ""); simpl.
  - discriminate.
  - apply where_from_nofk.
Qed.

Lemma root_record_nofk self p : root_record self p <> Err ForeignKeyError.
Proof.
  unfold root_record. pose proof (map_res_index_nofk (data self p) (root_pks self)).
  destruct (map_res _ _) as [vs|e]; [discriminate|].
  intros He; apply H; injection He as ->; reflexivity.
Qed.

Create HintDb nofk.
#[export] Hint Resolve dict_index_nofk fk_index_nofk fs_append_nofk fs_extend_nofk
  map_res_index_nofk get_doc_id_nofk where_of_doc_id_nofk root_record_nofk : nofk.

Section Rules.

(** With [strict], the preferred lookup is known to raise: then every
    preferred lookup is paired with an alternative one. *)
Variable strict : bool.

(** [m] only appends events [evs] to the trace; with [strict] they are
    paired; and when [m] raises [ForeignKeyError], its last event is an
    alternative lookup. *)
Definition fk_ok {A} (m : M A) : Prop :=
  forall w, exists evs,
    trace (snd (m w)) = trace w ++ evs /\
    (strict = true -> fk_paired evs = true) /\
    (fst (m w) = Err ForeignKeyError ->
     exists pre parent child, evs = pre ++ [EGetForeignKeysAlt parent child]).

Lemma fk_ret {A} (a : A) : fk_ok (ret a).
Proof.
  intros w; exists []; simpl; rewrite app_nil_r.
  split; [reflexivity | split; [reflexivity | discriminate]].
Qed.

Lemma fk_throw {A} (e : exn) : e <> ForeignKeyError -> fk_ok (@throw A e).
Proof.
  intros He w; exists []; simpl; rewrite app_nil_r.
  split; [reflexivity | split; [reflexivity|]].
  intros H; injection H as ->; contradiction.
Qed.

Lemma fk_liftR {A} (r : result A) : r <> Err ForeignKeyError -> fk_ok (liftR r).
Proof.
  intros Hr w; exists []; simpl; rewrite app_nil_r.
  split; [reflexivity | split; [reflexivity|]].
  intros H; contradiction.
Qed.

Lemma fk_emit (e : event) : fk_paired [e] = true -> fk_ok (emit e).
Proof.
  intros He w; exists [e]; simpl.
  split; [reflexivity | split; [intros _; exact He | discriminate]].
Qed.

Lemma fk_bind {A B} (m : M A) (k : A -> M B) :
  fk_ok m -> (forall a, fk_ok (k a)) -> fk_ok (bind m k).
Proof.
  intros Hm Hk w. unfold bind.
  destruct (Hm w) as [e1 [T1 [P1 F1]]].
  destruct (m w) as [[a|e] w1]; simpl in *.
  - destruct (Hk a w1) as [e2 [T2 [P2 F2]]].
    exists (e1 ++ e2). split; [rewrite T2, T1, app_assoc; reflexivity | split].
    + intros Hs. apply fk_paired_app; auto.
    + intros Hf. destruct (F2 Hf) as [pre [a' [b' ->]]].
      exists (e1 ++ pre), a', b'. rewrite app_assoc. reflexivity.
  - exists e1. split; [exact T1 | split; [exact P1|]].
    intros He; injection He as ->; apply F1; reflexivity.
Qed.

Lemma fk_foldM {A B} (f : B -> A -> M B) (l : list A) :
  (forall b x, fk_ok (f b x)) -> forall b, fk_ok (foldM f b l).
Proof.
  induction l as [|x l IH]; intros Hf b; simpl.
  - apply fk_ret.
  - apply fk_bind; [apply Hf|]. intros b'; apply IH; exact Hf.
Qed.

Lemma fk_for {A} (l : list A) (f : A -> M unit) :
  (forall x, fk_ok (f x)) -> fk_ok (for_ l f).
Proof.
  induction l as [|x l IH]; intros Hf; simpl.
  - apply fk_ret.
  - apply fk_bind; [apply Hf|]. intros _; apply IH; exact Hf.
Qed.

End Rules.

Ltac fk_step :=
  match goal with
  | |- fk_ok _ (bind _ _) => apply fk_bind; [|intro]
  | |- fk_ok _ (foldM _ _ _) => apply fk_foldM; intros ? ?
  | |- fk_ok _ (for_ _ _) => apply fk_for; intros ?
  | |- fk_ok _ (emit _) => apply fk_emit; reflexivity
  | |- fk_ok _ (ret _) => apply fk_ret
  | |- fk_ok _ (throw _) => apply fk_throw; discriminate
  | |- fk_ok _ (liftR (match ?x with _ => _ end)) =>
      apply fk_liftR; destruct x; discriminate
  | |- fk_ok _ (liftR _) => apply fk_liftR; solve [eauto with nofk]
  | |- fk_ok _ (if ?b then _ else _) => destruct b
  | |- fk_ok _ (match ?x with _ => _ end) => destruct x
  | |- fk_ok _ (let '(_, _) := ?x in _) => destruct x
  | |- fk_ok _ _ => progress (cbv beta zeta)
  end.

Create HintDb fk.
Ltac fk_auto := repeat (fk_step || eauto with fk).

Section Resolver.

Variable self : sync.
Variable strict : bool.
Hypothesis Hstrict :
  strict = true -> forall parent child, get_foreign_keys self parent child = Err ForeignKeyError.

(** [try: get_foreign_keys except ForeignKeyError: _get_foreign_keys]. *)
Lemma fk_get_fks_fallback parent child : fk_ok strict (get_fks_fallback self parent child).
Proof.
  intros w. unfold get_fks_fallback, except_fk, get_fks, get_fks_alt, bind, emit, liftR.
  simpl. destruct (get_foreign_keys self parent child) as [r|e] eqn:E.
  - exists [EGetForeignKeys (node_name parent) (node_name child)]. simpl.
    repeat split.
    + intros Hs. rewrite (Hstrict Hs) in E. discriminate.
    + discriminate.
  - destruct e;
      try (exists [EGetForeignKeys (node_name parent) (node_name child)]; simpl;
           repeat split;
           [intros Hs; rewrite (Hstrict Hs) in E; discriminate | discriminate]).
    exists [EGetForeignKeys (node_name parent) (node_name child);
            EGetForeignKeysAlt (node_name parent) (node_name child)].
    simpl. rewrite <- app_assoc. repeat split.
    + intros _. rewrite !String.eqb_refl. reflexivity.
    + intros _. exists [EGetForeignKeys (node_name parent) (node_name child)],
        (node_name parent), (node_name child). reflexivity.
Qed.

Lemma fk_search_ t f : fk_ok strict (search_ self t f).
Proof. unfold search_; fk_auto. Qed.

Lemma fk_append_doc_ids fl ids : fk_ok strict (append_doc_ids self fl ids).
Proof. unfold append_doc_ids; fk_auto. Qed.

#[local] Hint Resolve fk_get_fks_fallback fk_search_ fk_append_doc_ids : fk.

Lemma fk_rpk n p fl : fk_ok strict (_root_primary_key_resolver self n p fl).
Proof. unfold _root_primary_key_resolver; fk_auto. Qed.

Lemma fk_rfk n p fks fl : fk_ok strict (_root_foreign_key_resolver self n p fks fl).
Proof. unfold _root_foreign_key_resolver; fk_auto. Qed.

Lemma fk_through n p fl : fk_ok strict (_through_node_resolver self n p fl).
Proof. unfold _through_node_resolver; fk_auto. Qed.

#[local] Hint Resolve fk_rpk fk_rfk fk_through : fk.

(** The branches of [_insert_op] for a node of the tree; the through-table
    branch (a table outside [tree.tables]) is excluded. *)
Lemma fk_insert_op n fs ps :
  in_list (node_table n) (tree_tables self) = true ->
  fk_ok strict (_insert_op self n fs ps).
Proof. intros Hn. unfold _insert_op. rewrite Hn. fk_auto. Qed.

Lemma fk_update_op n fs ps : fk_ok strict (_update_op self n fs ps).
Proof. unfold _update_op; fk_auto. Qed.

Lemma fk_delete_op n fs ps : fk_ok strict (_delete_op self n fs ps).
Proof. unfold _delete_op; fk_auto. Qed.

Lemma fk_truncate_op n fs : fk_ok strict (_truncate_op self n fs).
Proof. unfold _truncate_op; fk_auto. Qed.

#[local] Hint Resolve fk_update_op fk_delete_op fk_truncate_op : fk.

Lemma fk_sync_filters n fs : fk_ok strict (sync_filters self n fs).
Proof. unfold sync_filters, execute_filters; fk_auto. Qed.

Lemma fk_resolve n p ps :
  in_list (node_table n) (tree_tables self) = true ->
  fk_ok strict (resolve self n p ps).
Proof.
  intros Hn. unfold resolve.
  apply fk_bind; [destruct (String.eqb _ _); [apply fk_insert_op; exact Hn | apply fk_ret]|].
  intros fs1. fk_auto.
Qed.

(** [_payloads] on a tree whose [get_node(table, schema)] returns the node
    of [table]. *)
Lemma fk_payloads ps :
  (forall t s, in_list t (tree_tables self) = true -> node_table (get_node self t s) = t) ->
  fk_ok strict (_payloads self ps).
Proof.
  intros Hnode. unfold _payloads. destruct ps as [|p0 ps]; [fk_auto|].
  destruct (negb (in_list (tg_op p0) TG_OP)); [fk_auto|].
  destruct (in_list (table p0) (tree_tables self)) eqn:Ht; simpl; [|fk_auto].
  destruct (negb (in_list (schema p0) (tree_schemas self))); [fk_auto|].
  apply fk_bind; [fk_auto|]. intros _.
  apply fk_bind; [apply fk_resolve; rewrite Hnode; exact Ht|].
  intros fs; apply fk_sync_filters.
Qed.

End Resolver.

(** C8: on every path [_payloads] takes, provided [tree.get_node(table,
    schema)] returns the node of [table] (so that a table in
    [tree.tables] never reaches the through-table branch of [_insert_op]):
    a [ForeignKeyError] only ends the run right after the alternative
    lookup [_get_foreign_keys] raised it, never after the preferred
    [get_foreign_keys]; and when the preferred lookup raises for every
    pair, each preferred lookup is immediately followed by the alternative
    lookup of the same parent and child. *)
Theorem fk_fallback_before_giving_up (self : sync) (ps : list payload) (w : world) :
  (forall t s, in_list t (tree_tables self) = true -> node_table (get_node self t s) = t) ->
  exists evs,
    trace (snd (_payloads self ps w)) = trace w ++ evs /\
    (fst (_payloads self ps w) = Err ForeignKeyError ->
     exists pre parent child, evs = pre ++ [EGetForeignKeysAlt parent child]) /\
    ((forall parent child, get_foreign_keys self parent child = Err ForeignKeyError) ->
     fk_paired evs = true).
Proof.
  intros Hnode.
  destruct (fk_payloads self false (fun H => ltac:(discriminate H)) ps Hnode w)
    as [evs [T [_ F]]].
  exists evs. repeat split; [exact T | exact F |].
  intros Hfail.
  destruct (fk_payloads self true (fun _ => Hfail) ps Hnode w) as [evs' [T' [P' _]]].
  rewrite T in T'. apply app_inv_head in T'. subst evs'. apply P'. reflexivity.
Qed.

(** The demo tree maps each of its tables to that table's node. *)
Lemma fk_fallback_before_giving_up_witness :
  exists evs,
    trace (snd (_payloads Runs.fk_broken [Runs.ins_author] Demo.w0)) = trace Demo.w0 ++ evs /\
    (fst (_payloads Runs.fk_broken [Runs.ins_author] Demo.w0) = Err ForeignKeyError ->
     exists pre parent child, evs = pre ++ [EGetForeignKeysAlt parent child]) /\
    ((forall parent child,
        get_foreign_keys Runs.fk_broken parent child = Err ForeignKeyError) ->
     fk_paired evs = true).
Proof.
  apply (fk_fallback_before_giving_up Runs.fk_broken [Runs.ins_author] Demo.w0).
  intros t s H. unfold in_list in H. simpl in H.
  destruct (String.eqb t "book") eqn:E1;
    [apply String.eqb_eq in E1; subst; reflexivity|].
  destruct (String.eqb t "author") eqn:E2;
    [apply String.eqb_eq in E2; subst; reflexivity|].
  destruct (String.eqb t "country") eqn:E3;
    [apply String.eqb_eq in E3; subst; reflexivity | discriminate].
Defined.

End FkFallback.

(* ================================================================== *)
(** * Further properties of the code *)

(* ------------------------------------------------------------------ *)
(** ** Checkpoint backends: teardown, shared store *)

Module CheckpointExtras.

Import CheckpointFacts.

Lemma kv_get_filter_other (k1 k2 : string) (s : list (string * string)) :
  k1 <> k2 ->
  RedisCheckpoint.kv_get k2 (filter (fun kv => negb (String.eqb k1 (fst kv))) s)
    = RedisCheckpoint.kv_get k2 s.
Proof.
  intros Hne. induction s as [|[k v] s IH]; simpl; [reflexivity|].
  destruct (String.eqb k1 k) eqn:E1; simpl.
  - apply String.eqb_eq in E1; subst k.
    destruct (String.eqb k2 k1) eqn:E2; [apply String.eqb_eq in E2; congruence|exact IH].
  - destruct (String.eqb k2 k); [reflexivity|exact IH].
Qed.

Lemma kv_get_filter_self (k : string) (s : list (string * string)) :
  RedisCheckpoint.kv_get k (filter (fun kv => negb (String.eqb k (fst kv))) s) = None.
Proof.
  induction s as [|[k' v] s IH]; simpl; [reflexivity|].
  destruct (String.eqb k k') eqn:E; simpl; [exact IH|rewrite E; exact IH].
Qed.

(** [RedisCheckpoint]: after [set_value(v)] succeeds, [get_value()]
    returns [v]; the key holds the decimal text of [v], which [int()]
    parses back for every integer, negative ones included. *)
Theorem redis_checkpoint_roundtrip (st : RedisCheckpoint.state) (v : Z) :
  fst (RedisCheckpoint.set_value st (Some v)) = Ok tt /\
  RedisCheckpoint.get_value (snd (RedisCheckpoint.set_value st (Some v))) = Ok (Some v).
Proof.
  split; [reflexivity|]. unfold RedisCheckpoint.get_value, RedisCheckpoint.kv_set; simpl.
  rewrite String.eqb_refl, py_int_py_str_int. reflexivity.
Qed.

(** [RedisCheckpoint]: two checkpoints with different keys on the same
    Redis server do not interfere; setting or tearing down one leaves what
    the other reads unchanged. *)
Theorem redis_checkpoint_keys_isolated (k1 k2 : string) (s : list (string * string))
  (v : option Z) :
  k1 <> k2 ->
  RedisCheckpoint.get_value
    (RedisCheckpoint.mk k2 (RedisCheckpoint.store (snd (RedisCheckpoint.set_value
                                                          (RedisCheckpoint.mk k1 s) v))))
    = RedisCheckpoint.get_value (RedisCheckpoint.mk k2 s) /\
  RedisCheckpoint.get_value
    (RedisCheckpoint.mk k2 (RedisCheckpoint.store (snd (RedisCheckpoint.teardown
                                                          (RedisCheckpoint.mk k1 s)))))
    = RedisCheckpoint.get_value (RedisCheckpoint.mk k2 s).
Proof.
  intros Hne. unfold RedisCheckpoint.get_value; simpl. split.
  - destruct v as [v|]; simpl; [|reflexivity].
    unfold RedisCheckpoint.kv_set; simpl.
    destruct (String.eqb k2 k1) eqn:E; [apply String.eqb_eq in E; congruence|].
    rewrite (kv_get_filter_other _ _ _ Hne). reflexivity.
  - rewrite (kv_get_filter_other _ _ _ Hne). reflexivity.
Qed.

(** Teardown: afterwards [RedisCheckpoint.get_value()] returns [None], while
    [FileCheckpoint.get_value()] keeps returning the value cached in the
    object, so a [set_value(v)] followed by [teardown()] still reads [v]. *)
Theorem checkpoint_teardown (st_f : FileCheckpoint.state) (st_r : RedisCheckpoint.state)
  (v : Z) :
  fst (FileCheckpoint.get_value (snd (FileCheckpoint.teardown st_f)))
    = Ok (FileCheckpoint._checkpoint st_f) /\
  fst (FileCheckpoint.get_value
         (snd (FileCheckpoint.teardown (snd (FileCheckpoint.set_value st_f (Some v))))))
    = Ok (Some v) /\
  RedisCheckpoint.get_value (snd (RedisCheckpoint.teardown st_r)) = Ok None.
Proof.
  split; [reflexivity|]. split; [reflexivity|].
  unfold RedisCheckpoint.get_value; simpl. rewrite kv_get_filter_self. reflexivity.
Qed.

End CheckpointExtras.

(* ------------------------------------------------------------------ *)
(** ** The checkpoint written by the consumer *)

Module PublishExtras.

Import Sync.

Lemma fold_min_le_init (zs : list Z) (z : Z) : (fold_left Z.min zs z <= z)%Z.
Proof.
  revert z; induction zs as [|y zs IH]; intros z; simpl; [lia|].
  specialize (IH (Z.min z y)). lia.
Qed.

Lemma min_list_le (z : Z) (zs : list Z) (x : Z) :
  In x (z :: zs) -> (min_list z zs <= x)%Z.
Proof.
  unfold min_list. revert z; induction zs as [|y zs IH]; intros z Hin; simpl in *.
  - destruct Hin as [<-|[]]; lia.
  - pose proof (fold_min_le_init zs (Z.min z y)).
    destruct Hin as [<-|[<-|Hin]]; [lia|lia|].
    apply IH; right; exact Hin.
Qed.

Lemma in_flat_map_some (xmins : list (option Z)) (x : Z) :
  In (Some x) xmins ->
  In x (flat_map (fun o => match o with Some z => [z] | None => [] end) xmins).
Proof.
  intros H. apply in_flat_map. exists (Some x). split; [exact H|left; reflexivity].
Qed.

(** The checkpoint [_on_publish] writes is strictly below [txid_current]
    and below every xmin of the batch, so the next [pull] (which starts
    from it) covers every transaction of the batch again. *)
Theorem publish_checkpoint_below_xmins (xmins : list (option Z)) (txid c : Z) :
  checkpoint_of_xmins xmins txid = Ok (Some c) ->
  (c < txid)%Z /\ (forall x, In (Some x) xmins -> (c < x)%Z).
Proof.
  unfold checkpoint_of_xmins.
  destruct (nonempty xmins && forallb is_none xmins); [discriminate|].
  destruct (existsb is_none xmins); [discriminate|].
  destruct (flat_map _ xmins) as [|z zs] eqn:Ef; [discriminate|].
  intros H; injection H as <-. split; [lia|].
  intros x Hx. apply in_flat_map_some in Hx. rewrite Ef in Hx.
  pose proof (min_list_le _ _ _ Hx). lia.
Qed.

(** [groups[t]] for the grouping of all-INSERT batches. *)
Fixpoint group_get (g : list (string * list payload)) (t : string) : option (list payload) :=
  match g with
  | [] => None
  | (k, l) :: g' => if String.eqb k t then Some l else group_get g' t
  end.

Lemma group_get_add (g : list (string * list payload)) (p : payload) (t : string) :
  group_get (group_add g p) t =
    if String.eqb (table p) t
    then Some (match group_get g t with Some l => l ++ [p] | None => [p] end)
    else group_get g t.
Proof.
  induction g as [|[k l] g IH]; simpl.
  - destruct (String.eqb (table p) t); reflexivity.
  - destruct (String.eqb (table p) k) eqn:E1; simpl.
    + apply String.eqb_eq in E1. rewrite <- E1.
      destruct (String.eqb (table p) t); reflexivity.
    + rewrite IH. destruct (String.eqb k t) eqn:E2; [|reflexivity].
      apply String.eqb_eq in E2; subst k. rewrite E1. reflexivity.
Qed.

Lemma group_keys_add (g : list (string * list payload)) (p : payload) :
  map fst (group_add g p) =
    if existsb (String.eqb (table p)) (map fst g) then map fst g
    else map fst g ++ [table p].
Proof.
  induction g as [|[k l] g IH]; simpl; [reflexivity|].
  destruct (String.eqb (table p) k); simpl; [reflexivity|].
  rewrite IH. destruct (existsb _ _); reflexivity.
Qed.

Lemma NoDup_snoc {A} (l : list A) (x : A) : NoDup l -> ~ In x l -> NoDup (l ++ [x]).
Proof.
  induction 1 as [|y l Hy Hl IH]; intros Hx; simpl.
  - constructor; [intros []|constructor].
  - constructor.
    + intros H. apply in_app_or in H. destruct H as [H|[H|[]]]; [contradiction|].
      apply Hx; left; auto.
    + apply IH. intros H; apply Hx; right; exact H.
Qed.

(** The all-INSERT path of [_on_publish] groups the batch by table
    ([defaultdict(list)]): each table occurs once among the groups, and the
    group of a table holds exactly the batch's payloads of that table, in
    batch order; a table without payloads has no group. *)
Theorem group_by_table_per_table (ps : list payload) :
  NoDup (map fst (group_by_table ps)) /\
  (forall t, group_get (group_by_table ps) t =
     let l := filter (fun p => String.eqb (table p) t) ps in
     if nonempty l then Some l else None).
Proof.
  induction ps as [|p ps IH] using rev_ind.
  - split; [constructor|reflexivity].
  - unfold group_by_table in *. rewrite fold_left_app. simpl.
    destruct IH as [ND IH]. split.
    + rewrite group_keys_add. destruct (existsb _ _) eqn:E; [exact ND|].
      apply NoDup_snoc; [exact ND|].
      intros Hin. assert (existsb (String.eqb (table p)) (map fst (fold_left group_add ps []))
                            = true) as E'.
      { apply existsb_exists. exists (table p). split; [exact Hin|apply String.eqb_refl]. }
      congruence.
    + intros t. rewrite group_get_add, IH, filter_app. simpl.
      destruct (String.eqb (table p) t); simpl.
      * destruct (filter _ ps); reflexivity.
      * rewrite app_nil_r. reflexivity.
Qed.

(** Consecutive payloads of a run share their [tg_op] and table. *)
Fixpoint chained (l : list payload) : bool :=
  match l with
  | x :: ((y :: _) as t) => same_run x y && chained t
  | _ => true
  end.

(** The last payload of a run and the first of the next one differ in
    [tg_op] or table. *)
Fixpoint run_breaks (rs : list (list payload)) : bool :=
  match rs with
  | r1 :: ((r2 :: _) as t) =>
      match List.rev r1, r2 with
      | x :: _, y :: _ => negb (same_run x y)
      | _, _ => false
      end && run_breaks t
  | _ => true
  end.

Lemma chained_snoc2 (l : list payload) (x y : payload) :
  chained (l ++ [x; y]) = chained (l ++ [x]) && same_run x y.
Proof.
  induction l as [|a l IH]; [simpl; rewrite !andb_true_r; reflexivity|].
  destruct l as [|b l].
  - simpl. destruct (same_run a x), (same_run x y); reflexivity.
  - change (chained (a :: b :: (l ++ [x; y])) = chained (a :: b :: (l ++ [x])) && same_run x y).
    simpl chained at 1 2. simpl in IH. rewrite IH, andb_assoc. reflexivity.
Qed.

Lemma bind_unit_ret (m : M unit) (w : world) : bind m (fun _ => ret tt) w = m w.
Proof. unfold bind, ret. destruct (m w) as [[[]|e] w']; reflexivity. Qed.

Lemma bind_ext {A B} (m : M A) (k k' : A -> M B) (w : world) :
  (forall a w1, k a w1 = k' a w1) -> bind m k w = bind m k' w.
Proof. intros H. unfold bind. destruct (m w) as [[a|e] w1]; auto. Qed.

Lemma publish_runs_gen (self : sync) (ps acc : list payload) :
  (acc = [] \/ exists p rest, ps = p :: rest /\ chained (acc ++ [p]) = true) ->
  exists rs,
    (forall w, publish_runs self acc ps w = for_ rs (_payloads self) w) /\
    concat rs = acc ++ ps /\
    Forall (fun r => nonempty r = true /\ chained r = true) rs /\
    run_breaks rs = true.
Proof.
  revert acc; induction ps as [|p rest IH]; intros acc Hacc.
  - destruct Hacc as [->|[p [rest [E _]]]]; [|discriminate].
    exists []. repeat split; auto.
  - assert (Hc : chained (acc ++ [p]) = true).
    { destruct Hacc as [->|[p' [rest' [E Hc]]]]; [reflexivity|].
      injection E as <- <-. exact Hc. }
    destruct rest as [|p2 rest'].
    + exists [acc ++ [p]]. split; [|split; [|split]].
      * intros w. simpl. symmetry. apply bind_unit_ret.
      * simpl. rewrite app_nil_r. reflexivity.
      * constructor; [|constructor]. split; [destruct acc; reflexivity|exact Hc].
      * reflexivity.
    + destruct (same_run p p2) eqn:Es.
      * destruct (IH (acc ++ [p])) as [rs [Hrun [Hcat [Hall Hbr]]]].
        { right. exists p2, rest'. split; [reflexivity|].
          rewrite <- app_assoc. simpl. rewrite chained_snoc2, Hc, Es. reflexivity. }
        exists rs. split; [|split; [|split]]; auto.
        -- intros w. simpl. rewrite Es. simpl. apply Hrun.
        -- rewrite Hcat, <- app_assoc. reflexivity.
      * destruct (IH []) as [rs [Hrun [Hcat [Hall Hbr]]]]; [left; reflexivity|].
        exists ((acc ++ [p]) :: rs). split; [|split; [|split]].
        -- intros w. simpl. rewrite Es. simpl. apply bind_ext. intros _ w1. apply Hrun.
        -- simpl. rewrite Hcat, <- app_assoc. reflexivity.
        -- constructor; [split; [destruct acc; reflexivity|exact Hc]|exact Hall].
        -- destruct rs as [|r2 rs']; [discriminate|].
           inversion Hall as [|? ? [Hne _] _]; subst.
           destruct r2 as [|y r2']; [discriminate|].
           simpl in Hcat. injection Hcat as <- _.
           change (run_breaks ((acc ++ [p]) :: (y :: r2') :: rs'))
             with ((match List.rev (acc ++ [p]), y :: r2' with
                    | x :: _, y :: _ => negb (same_run x y)
                    | _, _ => false end) && run_breaks ((y :: r2') :: rs')).
           replace (List.rev (acc ++ [p])) with (p :: List.rev acc)
             by (rewrite List.rev_app_distr; reflexivity).
           cbv beta iota. rewrite Es, Hbr. reflexivity.
Qed.

(** The mixed-batch path of [_on_publish] hands [_payloads] the batch cut
    into its maximal runs of consecutive payloads with the same [tg_op]
    and table, in batch order: the runs concatenate to the batch, none is
    empty, each has one [tg_op] and table, and neighbouring runs differ.
    So [_payloads]' assumption of a single [tg_op] and table holds. *)
Theorem publish_runs_maximal (self : sync) (ps : list payload) :
  exists rs,
    (forall w, publish_runs self [] ps w = for_ rs (_payloads self) w) /\
    concat rs = ps /\
    Forall (fun r => nonempty r = true /\ chained r = true) rs /\
    run_breaks rs = true.
Proof. apply (publish_runs_gen self ps []). left; reflexivity. Qed.

End PublishExtras.

(* ------------------------------------------------------------------ *)
(** ** What resolving and consuming never do *)

Module PayloadsExtras.

Import Sync Frame CheckpointFlow.



(** Resolving a run never touches the replication slot, the checkpoint or
    the [_truncate] flag: its only effects are searches, foreign-key
    lookups, bulk calls and [sync()] calls. *)
Theorem payloads_leave_slot_and_checkpoint (self : sync) (ps : list payload) (w : world) :
  exists evs,
    snd (_payloads self ps w) = mkWorld (trace w ++ evs) (checkpoint w) (_truncate w) /\
    Forall (fun e => is_slot_event e = false) evs.
Proof. exact (frame_payloads self ps w). Qed.

Lemma frame_publish_runs (self : sync) (acc ps : list payload) :
  frame nonslot (publish_runs self acc ps).
Proof.
  revert acc; induction ps as [|p rest IH]; intros acc; simpl.
  - apply frame_ret.
  - destruct rest as [|p2 rest']; [apply frame_payloads|].
    destruct (negb (same_run p p2)); [|apply IH].
    apply frame_bind; [apply frame_payloads|intros _; apply IH].
Qed.

Lemma on_publish_effects_gen (self : sync) (ps : list payload) (t : Z) (w : world) :
  exists evs,
    trace (snd (_on_publish self ps t w)) = trace w ++ evs /\
    Forall nonslot evs /\
    _truncate (snd (_on_publish self ps t w)) = _truncate w /\
    (checkpoint (snd (_on_publish self ps t w)) = checkpoint w \/
     exists c, checkpoint_of_xmins (map xmin ps) t = Ok (Some c) /\
               checkpoint (snd (_on_publish self ps t w)) = Some c).
Proof.
  unfold _on_publish. cbv zeta.
  match goal with |- context [bind ?m _ w] => set (first := m) end.
  assert (Hm : frame nonslot first).
  { subst first. destruct (_ && _).
    - apply frame_for. intros g _. apply frame_payloads.
    - apply frame_publish_runs. }
  destruct (Hm w) as [e1 [H1 F1]].
  unfold bind. destruct (first w) as [[u|e] w1]; simpl in H1; subst w1.
  - unfold liftR. rewrite map_map, (map_ext _ xmin (xmin_substitute_base_table self)).
    destruct (checkpoint_of_xmins (map xmin ps) t) as [[c|]|e] eqn:Ec; simpl.
    + exists e1. repeat split; auto. right. exists c; auto.
    + exists e1. repeat split; auto.
    + exists e1. repeat split; auto.
  - exists e1. simpl. repeat split; auto.
Qed.

(** Consuming a batch ([_on_publish]) never peeks or advances the
    replication slot and never changes the [_truncate] flag; the checkpoint
    is either left as it was or set to the value computed from the batch's
    xmins, which lies below every one of them. *)
Theorem on_publish_effects (self : sync) (ps : list payload) (t : Z) (w : world) :
  exists evs,
    trace (snd (_on_publish self ps t w)) = trace w ++ evs /\
    Forall (fun e => is_slot_event e = false) evs /\
    _truncate (snd (_on_publish self ps t w)) = _truncate w /\
    (checkpoint (snd (_on_publish self ps t w)) = checkpoint w \/
     exists c, checkpoint_of_xmins (map xmin ps) t = Ok (Some c) /\
               checkpoint (snd (_on_publish self ps t w)) = Some c).
Proof. apply on_publish_effects_gen. Qed.

Definition is_pull (o : op) : bool :=
  match o with Pull _ _ _ _ => true | _ => false end.

(** Until a [pull] completes (it is what sets [_truncate]), neither the
    consumer nor the slot-truncation worker touches the replication slot:
    a run of [_on_publish] and [_truncate_slots] steps from a state with
    [_truncate] unset makes no peek and no advance. *)
Theorem no_slot_access_before_pull (self : sync) (ops : list op) (w : world) :
  _truncate w = false ->
  forallb (fun o => negb (is_pull o)) ops = true ->
  exists evs,
    trace (snd (run self ops w)) = trace w ++ evs /\
    Forall (fun e => is_slot_event e = false) evs /\
    _truncate (snd (run self ops w)) = false.
Proof.
  revert w; induction ops as [|o ops IH]; intros w Ht Hops; simpl in *.
  - exists []. rewrite app_nil_r. auto.
  - apply andb_prop in Hops as [Ho Hops].
    destruct o as [t1 t2 lsn rs|ps t|]; simpl in Ho; [discriminate| |].
    + destruct (on_publish_effects_gen self ps t w) as [e1 [Htr [F1 [Htr' _]]]].
      unfold bind. simpl run_op.
      destruct (_on_publish self ps t w) as [[u|e] w1] eqn:E; simpl in *.
      * destruct (IH w1) as [e2 [H2 [F2 T2]]]; [congruence|exact Hops|].
        exists (e1 ++ e2). rewrite H2, Htr, app_assoc. repeat split; auto.
        apply Forall_app; auto.
      * exists e1. repeat split; auto. congruence.
    + unfold bind. simpl run_op. unfold _truncate_slots, bind, get_truncate. rewrite Ht.
      unfold ret. apply IH; auto.
Qed.

End PayloadsExtras.

(* ------------------------------------------------------------------ *)
(** ** Draining the replication slot *)

Module SlotExtras.

Import Sync Frame SlotFacts.

(** The number of peeks, from the first, that return changes. *)
Fixpoint leading_nonempty (responses : list (list row)) : nat :=
  match responses with
  | [] => O
  | r :: rs => if nonempty r then S (leading_nonempty rs) else O
  end.

(** [k] peek/advance pairs with bounds [b], then a last peek. *)
Fixpoint slot_pattern (b : bounds) (k : nat) : list event :=
  match k with
  | O => [EPeek b]
  | S k' => EPeek b :: EGet b :: slot_pattern b k'
  end.

Lemma drain_counts_gen (self : sync) (b : bounds) (responses : list (list row))
  (w : world) :
  exists evs k r,
    logical_slot_changes self b responses w
      = (r, mkWorld (trace w ++ evs) (checkpoint w) (_truncate w)) /\
    filter is_slot_event evs = slot_pattern b k /\
    (r = Ok tt -> k = leading_nonempty responses) /\
    (r <> Ok tt -> (k < leading_nonempty responses)%nat).
Proof.
  revert w; induction responses as [|changes responses IH]; intros w; simpl.
  - exists [EPeek b], O, (Ok tt).
    split; [reflexivity|split; [reflexivity|split; [intros _; reflexivity|]]].
    intros H; contradiction H; reflexivity.
  - unfold bind at 1; simpl.
    destruct (nonempty changes).
    2:{ exists [EPeek b], O, (Ok tt).
        split; [reflexivity|split; [reflexivity|split; [intros _; reflexivity|]]].
        intros H; contradiction H; reflexivity. }
    simpl.
    set (w1 := mkWorld (trace w ++ [EPeek b]) (checkpoint w) (_truncate w)).
    set (rows := filter _ changes).
    destruct (frame_process_rows self [] rows w1) as [e1 [H1 F1]].
    unfold bind.
    destruct (process_rows self [] rows w1) as [[u|ex] w2]; simpl in H1; subst w2.
    + simpl. set (w3 := mkWorld _ _ _).
      destruct (IH w3) as [e2 [k [r [H2 [S2 [Ok2 Err2]]]]]].
      rewrite H2.
      exists (EPeek b :: e1 ++ EGet b :: e2), (S k), r. split; [|split; [|split]].
      * subst w3 w1; simpl. rewrite <- !app_assoc. reflexivity.
      * simpl. rewrite filter_app, (filter_nonslot _ F1). simpl. rewrite S2. reflexivity.
      * intros Hr. rewrite (Ok2 Hr). reflexivity.
      * intros Hr. specialize (Err2 Hr). lia.
    + exists (EPeek b :: e1), O, (Err ex). split; [|split; [|split]].
      * subst w1; simpl. rewrite <- app_assoc. reflexivity.
      * simpl. rewrite (filter_nonslot _ F1). reflexivity.
      * discriminate.
      * intros _. lia.
Qed.

(** [logical_slot_changes] peeks with the same bounds until a peek returns
    nothing, and advances the slot once after each non-empty peek whose
    changes it has processed: when it returns normally it has advanced once
    per leading non-empty peek; when processing raises, the batch it failed
    on is never advanced over.  It leaves the checkpoint alone. *)
Theorem drain_advances_once_per_batch (self : sync) (b : bounds)
  (responses : list (list row)) (w : world) :
  exists evs k,
    snd (logical_slot_changes self b responses w)
      = mkWorld (trace w ++ evs) (checkpoint w) (_truncate w) /\
    filter is_slot_event evs = slot_pattern b k /\
    (fst (logical_slot_changes self b responses w) = Ok tt ->
       k = leading_nonempty responses) /\
    (fst (logical_slot_changes self b responses w) <> Ok tt ->
       (k < leading_nonempty responses)%nat).
Proof.
  destruct (drain_counts_gen self b responses w) as [evs [k [r [H [Hs [Hok Her]]]]]].
  exists evs, k. rewrite H. simpl. auto.
Qed.

(** [pull] syncs and drains the slot from the stored checkpoint
    ([txmin]) up to [txmax], with the same bounds for every peek and
    advance; only when the drain completes does it store the new
    checkpoint and set [_truncate]; when it raises, both keep their old
    values. *)
Theorem pull_effects (self : sync) (txmax txid_after : Z) (lsn : string)
  (responses : list (list row)) (w : world) :
  let b := (checkpoint w, Some txmax, Some (logical_slot_chunk_size self), Some lsn) in
  exists evs k,
    trace (snd (pull self txmax txid_after lsn responses w))
      = trace w ++ ESyncTx (checkpoint w) (Some txmax) :: evs /\
    filter is_slot_event evs = slot_pattern b k /\
    (fst (pull self txmax txid_after lsn responses w) = Ok tt ->
       k = leading_nonempty responses /\
       checkpoint (snd (pull self txmax txid_after lsn responses w))
         = Some (if Z.eqb txmax 0 then txid_after else txmax) /\
       _truncate (snd (pull self txmax txid_after lsn responses w)) = true) /\
    (fst (pull self txmax txid_after lsn responses w) <> Ok tt ->
       checkpoint (snd (pull self txmax txid_after lsn responses w)) = checkpoint w /\
       _truncate (snd (pull self txmax txid_after lsn responses w)) = _truncate w /\
       (k < leading_nonempty responses)%nat).
Proof.
  intros b. unfold pull, get_checkpoint, emit, set_checkpoint, set_truncate, bind. simpl.
  destruct (drain_counts_gen self b responses
              (mkWorld (trace w ++ [ESyncTx (checkpoint w) (Some txmax)]) (checkpoint w)
                       (_truncate w))) as [evs [k [r [H [Hs [Hok Her]]]]]].
  subst b. rewrite H. exists evs, k.
  destruct r as [[]|e]; simpl.
  - split; [rewrite <- app_assoc; reflexivity|]. split; [exact Hs|].
    split; [intros _; auto|]. intros Hc; contradiction Hc; reflexivity.
  - split; [rewrite <- app_assoc; reflexivity|]. split; [exact Hs|].
    split; [discriminate|]. intros _. repeat split; auto. apply Her. discriminate.
Qed.

End SlotExtras.

(* ------------------------------------------------------------------ *)
(** ** Inserts and updates on the root table *)

Module RootExtras.

Import Sync FilterFacts RootDelete.

Lemma fs_set_fs_set (fs : filterset) (k : string) (a b : list pydict) :
  fs_set (fs_set fs k a) k b = fs_set fs k b.
Proof.
  induction fs as [|[k' v] fs IH]; simpl.
  - rewrite String.eqb_refl. reflexivity.
  - destruct (String.eqb k k') eqn:E; simpl; rewrite E; [reflexivity|].
    rewrite IH. reflexivity.
Qed.

Lemma fs_set_get (fs : filterset) (k : string) (v : list pydict) :
  fs_get fs k = Some v -> fs_set fs k v = fs.
Proof.
  induction fs as [|[k' v'] fs IH]; simpl; [discriminate|].
  destruct (String.eqb k k') eqn:E.
  - intros H; injection H as ->. apply String.eqb_eq in E; subst. reflexivity.
  - intros H. rewrite (IH H). reflexivity.
Qed.

Lemma fs_get_set_same (fs : filterset) (k : string) (v : list pydict) :
  fs_get (fs_set fs k v) k = Some v.
Proof. rewrite fs_get_fs_set, String.eqb_refl. reflexivity. Qed.

(** The root filter record of a payload: [{k: data[k] for k in keys}]. *)
Definition pk_record (d : pydict) (keys : list string) : pydict :=
  dict_zip keys (map (dict_get_none d) keys).

(** An INSERT run on the root table makes no search and no call: it
    appends to the root slot of the filter set one record
    [{pk: data[pk]}] per payload, in payload order, and changes no other
    slot.  (Each payload's data carries the root primary keys, as
    [_payloads] checks before.) *)
Theorem insert_root_pushes_records (self : sync) (n : node) (fs : filterset)
  (l : list pydict) (ps : list payload) (w : world) :
  in_list (node_table n) (tree_tables self) = true ->
  node_parent n = None ->
  fs_get fs (node_table n) = Some l ->
  Forall (fun p => has_keys (data self p) (root_pks self) = true) ps ->
  _insert_op self n fs ps w =
    (Ok (fs_set fs (node_table n)
           (l ++ map (fun p => pk_record (data self p) (root_pks self)) ps)), w).
Proof.
  intros Hin Hn Hl Hall. unfold _insert_op. rewrite Hin, Hn.
  match goal with |- foldM ?f _ _ _ = _ =>
    assert (Hstep : forall fs0 l0 p w1, fs_get fs0 (node_table n) = Some l0 ->
              has_keys (data self p) (root_pks self) = true ->
              f fs0 p w1 = (Ok (fs_set fs0 (node_table n)
                                  (l0 ++ [pk_record (data self p) (root_pks self)])), w1));
    [ intros fs0 l0 p w1 Hl0 Hk; unfold bind, liftR, root_record;
      rewrite (map_res_dict_index _ _ Hk); unfold fs_append; rewrite Hl0; reflexivity
    | revert fs l w Hl; induction Hall as [|p ps Hk _ IH]; intros fs l w Hl; simpl ] end.
  - rewrite app_nil_r, (fs_set_get _ _ _ Hl). reflexivity.
  - unfold bind at 1. rewrite (Hstep _ _ _ _ Hl Hk).
    rewrite (IH _ _ _ (fs_get_set_same _ _ _)).
    rewrite fs_set_fs_set, <- app_assoc. reflexivity.
Qed.

Lemma old_values_all (d : pydict) (ks : list string) :
  has_keys d ks = true ->
  flat_map (fun k => match dict_get d k with Some v => [v] | None => [] end) ks
    = map (dict_get_none d) ks.
Proof.
  unfold has_keys, dict_get_none. induction ks as [|k ks IH]; simpl; [reflexivity|].
  destruct (dict_get d k); simpl; [|discriminate].
  intros H; rewrite (IH H); reflexivity.
Qed.

Lemma old_values_missing (d : pydict) (ks : list string) :
  has_keys d ks = false ->
  (length (flat_map (fun k => match dict_get d k with Some v => [v] | None => [] end) ks)
     < length ks)%nat.
Proof.
  unfold has_keys. induction ks as [|k ks IH]; simpl; [discriminate|].
  assert (Hle : forall ks', (length (flat_map (fun k => match dict_get d k with
                    Some v => [v] | None => [] end) ks') <= length ks')%nat).
  { induction ks' as [|k' ks' IH']; simpl; [lia|].
    destruct (dict_get d k'); simpl; lia. }
  destruct (dict_get d k); simpl.
  - intros H. specialize (IH H). lia.
  - intros _. specialize (Hle ks). lia.
Qed.

(** The bulk-delete op for the old document of an UPDATE: [_id] is the
    delimiter-join of the old root primary-key values. *)
Definition old_doc (self : sync) (p : payload) : doc :=
  mkDoc (String.concat (delimiter self)
           (map py_str (map (dict_get_none (old p)) (root_pks self))))
        (index self) "delete" None (doc_type self).

(** The payloads whose old row holds every root primary key, with values
    that differ from the new row's. *)
Definition pk_changed (self : sync) (p : payload) : bool :=
  has_keys (old p) (root_pks self)
  && negb (list_pyval_eqb (map (dict_get_none (old p)) (root_pks self))
                          (map (dict_get_none (new p)) (root_pks self))).

(** An UPDATE run on the root table, with no routing configured: the root
    slot gets one record [{pk: data[pk]}] per payload, in order, and one
    bulk call (if any) deletes, for every payload whose old row holds all
    root primary keys with values differing from the new ones, the
    document of the old values; no other call is made. *)
Theorem update_root_without_routing (self : sync) (n : node) (fs : filterset)
  (l : list pydict) (ps : list payload) (w : world) :
  node_parent n = None ->
  routing_set self = false ->
  fs_get fs (node_table n) = Some l ->
  Forall (fun p => has_keys (data self p) (node_primary_keys n) = true /\
                   has_keys (new p) (root_pks self) = true) ps ->
  let docs := map (old_doc self) (filter (pk_changed self) ps) in
  _update_op self n fs ps w =
    (Ok (fs_set fs (node_table n)
           (l ++ map (fun p => pk_record (data self p) (node_primary_keys n)) ps)),
     mkWorld (trace w ++ (if nonempty docs then [EBulk docs None] else []))
             (checkpoint w) (_truncate w)).
Proof.
  intros Hn Hr Hl Hall docs. unfold _update_op. rewrite Hn.
  match goal with |- bind (foldM ?f (fs, []) ps) _ w = _ =>
    assert (Hstep : forall fs0 l0 ds p w1, fs_get fs0 (node_table n) = Some l0 ->
              has_keys (data self p) (node_primary_keys n) = true ->
              has_keys (new p) (root_pks self) = true ->
              f (fs0, ds) p w1 =
                (Ok (fs_set fs0 (node_table n)
                       (l0 ++ [pk_record (data self p) (node_primary_keys n)]),
                     ds ++ (if pk_changed self p then [old_doc self p] else [])), w1));
    [ | assert (Hf : forall fs0 l0 ds w1, fs_get fs0 (node_table n) = Some l0 ->
              foldM f (fs0, ds) ps w1 =
                (Ok (fs_set fs0 (node_table n)
                       (l0 ++ map (fun p => pk_record (data self p) (node_primary_keys n)) ps),
                     ds ++ map (old_doc self) (filter (pk_changed self) ps)), w1)) ] end.
  - intros fs0 l0 ds p w1 Hl0 Hk Hnew.
    unfold bind, liftR. rewrite (map_res_dict_index _ _ Hk).
    unfold fs_append. rewrite Hl0. rewrite (map_res_dict_index _ _ Hnew).
    unfold pk_changed, old_values.
    destruct (has_keys (old p) (root_pks self)) eqn:Ho.
    + rewrite (old_values_all _ _ Ho), !length_map, Nat.eqb_refl. cbn [andb].
      destruct (list_pyval_eqb (map (dict_get_none (old p)) (root_pks self))
                               (map (dict_get_none (new p)) (root_pks self))) eqn:Eq;
        cbn [negb].
      * rewrite app_nil_r. reflexivity.
      * assert (Hne : get_doc_id self (map (dict_get_none (old p)) (root_pks self))
                        (root_table self)
                      = Ok (String.concat (delimiter self)
                              (map py_str (map (dict_get_none (old p)) (root_pks self))))).
        { unfold get_doc_id.
          destruct (map (dict_get_none (old p)) (root_pks self)) eqn:Em; [|reflexivity].
          destruct (root_pks self); [|discriminate]. discriminate. }
        rewrite Hne, Hr. reflexivity.
    + pose proof (old_values_missing _ _ Ho) as Hlt.
      rewrite length_map.
      destruct (Nat.eqb _ (length (root_pks self))) eqn:Eqn.
      { apply Nat.eqb_eq in Eqn. lia. }
      cbn [andb]. rewrite app_nil_r. reflexivity.
  - clear Hl. induction Hall as [|p ps [Hk Hnew] _ IH]; intros fs0 l0 ds w1 Hl0; simpl.
    + rewrite !app_nil_r, (fs_set_get _ _ _ Hl0). reflexivity.
    + unfold bind at 1. rewrite (Hstep _ _ _ _ _ Hl0 Hk Hnew).
      rewrite (IH _ _ _ _ (fs_get_set_same _ _ _)).
      rewrite fs_set_fs_set, <- !app_assoc.
      destruct (pk_changed self p); reflexivity.
  - unfold bind at 1. rewrite (Hf fs l [] w Hl). simpl.
    subst docs. destruct (map (old_doc self) (filter (pk_changed self) ps)); simpl.
    + rewrite app_nil_r. destruct w; reflexivity.
    + reflexivity.
Qed.

End RootExtras.

(* ------------------------------------------------------------------ *)
(** ** Document ids: join and split *)

Module DocIdExtras.

Import Sync.

Lemma append_empty_r (s : string) : (s ++ "")%string = s.
Proof. induction s as [|a s IH]; simpl; [reflexivity|]. rewrite IH; reflexivity. Qed.

Lemma append_assoc_str (a b c : string) : ((a ++ b) ++ c)%string = (a ++ (b ++ c))%string.
Proof. induction a as [|x a IH]; simpl; [reflexivity|]. rewrite IH; reflexivity. Qed.

Lemma substring_0_length (s : string) : substring 0 (String.length s) s = s.
Proof. induction s as [|a s IH]; simpl; [reflexivity|]. rewrite IH; reflexivity. Qed.

Lemma length_append_str (a b : string) :
  String.length (a ++ b) = (String.length a + String.length b)%nat.
Proof. induction a as [|x a IH]; simpl; [reflexivity|]. rewrite IH; reflexivity. Qed.

(** A piece with no separator character is read to the end. *)
Lemma split_go_last (c : ascii) (fuel : nat) (x cur : string) :
  ~ In c (list_ascii_of_string x) ->
  split_go (String c "") fuel x cur = [(cur ++ x)%string].
Proof.
  revert fuel cur. induction x as [|d x IH]; intros fuel cur Hx;
    destruct fuel as [|fuel]; simpl; try reflexivity.
  - rewrite append_empty_r. reflexivity.
  - simpl in Hx. destruct (Ascii.ascii_dec c d) as [->|Hne].
    + exfalso; apply Hx; left; reflexivity.
    + rewrite IH by tauto. rewrite append_assoc_str. reflexivity.
Qed.

(** A piece followed by the separator is cut there. *)
Lemma split_go_piece (c : ascii) (fuel : nat) (x rest cur : string) :
  ~ In c (list_ascii_of_string x) ->
  (String.length x < fuel)%nat ->
  split_go (String c "") fuel (x ++ String c rest) cur
  = (cur ++ x)%string :: split_go (String c "") (fuel - String.length x - 1) rest "".
Proof.
  revert fuel cur. induction x as [|d x IH]; intros fuel cur Hx Hf;
    destruct fuel as [|fuel]; simpl in *; try lia.
  - destruct (Ascii.ascii_dec c c) as [_|Hne]; [|contradiction].
    replace (fuel - 0)%nat with fuel by lia.
    rewrite append_empty_r, Nat.sub_0_r, substring_0_length.
    destruct rest; reflexivity.
  - destruct (Ascii.ascii_dec c d) as [->|Hne].
    + exfalso; apply Hx; left; reflexivity.
    + rewrite IH by (tauto || lia). rewrite append_assoc_str. reflexivity.
Qed.

Lemma split_go_concat (c : ascii) (parts : list string) (fuel : nat) :
  parts <> [] ->
  Forall (fun x => ~ In c (list_ascii_of_string x)) parts ->
  (String.length (String.concat (String c "") parts) <= fuel)%nat ->
  split_go (String c "") fuel (String.concat (String c "") parts) "" = parts.
Proof.
  revert fuel. induction parts as [|x parts IH]; intros fuel Hne Hall Hf;
    [contradiction|].
  inversion Hall as [|? ? Hx Hrest]; subst.
  destruct parts as [|y parts].
  - simpl. rewrite split_go_last by exact Hx. reflexivity.
  - change (String.concat (String c "") (x :: y :: parts))
      with (x ++ String c (String.concat (String c "") (y :: parts)))%string in *.
    remember (String.concat (String c "") (y :: parts)) as r eqn:Er.
    rewrite length_append_str in Hf. cbn [String.length] in Hf.
    rewrite split_go_piece by (exact Hx || lia).
    subst r. rewrite IH; [reflexivity | discriminate | exact Hrest | lia].
Qed.

(** With a one-character delimiter that occurs in no primary-key value,
    the document id [get_doc_id] builds splits back into the values'
    strings, and the root filter record read from it is built from them:
    the id round-trips. *)
Theorem doc_id_roundtrip (self : sync) (c : ascii) (vs : list pyval) (t : string) :
  delimiter self = String c "" ->
  vs <> [] ->
  Forall (fun v => ~ In c (list_ascii_of_string (py_str v))) vs ->
  let id := String.concat (delimiter self) (map py_str vs) in
  get_doc_id self vs t = Ok id /\
  py_split id (delimiter self) = Ok (map py_str vs) /\
  where_of_doc_id self id = where_from (root_pks self) (map py_str vs) [].
Proof.
  intros Hd Hne Hall id.
  assert (Hs : py_split id (delimiter self) = Ok (map py_str vs)).
  { subst id. unfold py_split. rewrite Hd. simpl String.eqb. cbv iota.
    rewrite split_go_concat; [reflexivity | | | lia].
    - destruct vs; [contradiction | discriminate].
    - apply Forall_map. exact Hall. }
  split; [|split].
  - unfold get_doc_id. destruct vs; [contradiction | reflexivity].
  - exact Hs.
  - unfold where_of_doc_id. rewrite Hs. reflexivity.
Qed.

(** A value holding the delimiter breaks the round trip: the document id
    of the single key value ["a_b"] splits into two parameters. *)
Theorem doc_id_delimiter_in_value (self : sync) :
  delimiter self = "_"%string ->
  get_doc_id self [PyStr "a_b"] (root_table self) = Ok "a_b"%string /\
  py_split "a_b" (delimiter self) = Ok ["a"; "b"]%string.
Proof. intros Hd. unfold get_doc_id, py_split. rewrite Hd. split; reflexivity. Qed.

End DocIdExtras.

(* ------------------------------------------------------------------ *)
(** ** Base-table substitution for views *)

Module SubstituteExtras.

Import Sync.

(** [substitute_base_table] only ever changes a payload's [table]: its
    operation, schema, rows and [xmin] stay; a payload whose table is no
    node's base table is returned as it is. *)
Theorem substitute_base_table_fields (self : sync) (p : payload) :
  let q := substitute_base_table self p in
  tg_op q = tg_op p /\ schema q = schema p /\ old q = old p /\
  new q = new p /\ xmin q = xmin p /\
  (forallb (fun n => negb (in_list (table p) (node_base_tables n))) (tree_nodes self) = true ->
   q = p).
Proof.
  unfold substitute_base_table. generalize (tree_nodes self) as ns.
  intros ns. revert p. induction ns as [|n ns IH]; intros p; simpl.
  - repeat split; auto.
  - destruct (in_list (table p) (node_base_tables n)) eqn:E; simpl.
    + destruct (IH (mkPayload (tg_op p) (schema p) (node_table n) (old p) (new p) (xmin p)))
        as (H1 & H2 & H3 & H4 & H5 & _).
      simpl in *. repeat split; auto. discriminate.
    + exact (IH p).
Qed.

End SubstituteExtras.

(* ------------------------------------------------------------------ *)
(** ** TRUNCATE on the root table *)

Module TruncateExtras.

Import Sync.

(** A TRUNCATE of the root table searches the index for the table's
    documents and deletes every one of them in one bulk call (none when the
    search finds nothing); the filter set comes back unchanged. *)
Theorem truncate_root_deletes_all (self : sync) (n : node) (fs : filterset) (w : world) :
  node_parent n = None ->
  let ids := search self (node_table n) None in
  _truncate_op self n fs w =
    (Ok fs,
     mkWorld (trace w ++ ESearch (node_table n) None ::
                (if nonempty ids
                 then [EBulk (map (fun id => mkDoc id (index self) "delete" None
                                               (doc_type self)) ids) None]
                 else []))
             (checkpoint w) (_truncate w)).
Proof.
  intros Hn ids. unfold _truncate_op. rewrite Hn.
  unfold search_, bind, emit, ret. simpl. subst ids.
  destruct (search self (node_table n) None); simpl;
    rewrite <- ?app_assoc; reflexivity.
Qed.

End TruncateExtras.

(* ------------------------------------------------------------------ *)
(** ** Concrete instances of the properties above *)

Module ExtraRuns.

Import Sync Demo Runs.
Local Open Scope string_scope.
Local Open Scope list_scope.

Lemma redis_checkpoint_keys_isolated_witness :
  RedisCheckpoint.get_value
    (RedisCheckpoint.mk "a:y" (RedisCheckpoint.store (snd (RedisCheckpoint.set_value
                                 (RedisCheckpoint.mk "a:x" [("a:y", "5")]) (Some 7%Z)))))
    = RedisCheckpoint.get_value (RedisCheckpoint.mk "a:y" [("a:y", "5")]) /\
  RedisCheckpoint.get_value
    (RedisCheckpoint.mk "a:y" (RedisCheckpoint.store (snd (RedisCheckpoint.teardown
                                 (RedisCheckpoint.mk "a:x" [("a:y", "5")])))))
    = RedisCheckpoint.get_value (RedisCheckpoint.mk "a:y" [("a:y", "5")]).
Proof.
  apply (CheckpointExtras.redis_checkpoint_keys_isolated "a:x" "a:y" [("a:y", "5")]
           (Some 7%Z)).
  discriminate.
Defined.

Lemma publish_checkpoint_below_xmins_witness :
  checkpoint_of_xmins [Some 150%Z; Some 160%Z] 200%Z = Ok (Some 149%Z) /\
  (149 < 200)%Z /\ (forall x, In (Some x) [Some 150%Z; Some 160%Z] -> (149 < x)%Z).
Proof.
  split; [vm_compute; reflexivity|].
  apply (PublishExtras.publish_checkpoint_below_xmins [Some 150%Z; Some 160%Z] 200%Z 149%Z).
  vm_compute; reflexivity.
Defined.



Lemma no_slot_access_before_pull_witness :
  exists evs,
    trace (snd (run demo [Publish [ins_book 7 (Some 150%Z)] 201%Z; TruncateSlots] w0))
      = trace w0 ++ evs /\
    Forall (fun e => is_slot_event e = false) evs /\
    _truncate (snd (run demo [Publish [ins_book 7 (Some 150%Z)] 201%Z; TruncateSlots] w0))
      = false.
Proof.
  apply (PayloadsExtras.no_slot_access_before_pull demo
           [Publish [ins_book 7 (Some 150%Z)] 201%Z; TruncateSlots] w0);
    reflexivity.
Defined.

Lemma insert_root_pushes_records_witness :
  _insert_op demo book [("book", [])] [ins_book 7 None; ins_book 8 None] w0 =
    (Ok (fs_set [("book", [])] "book"
           ([] ++ map (fun p => RootExtras.pk_record (data demo p) (root_pks demo))
                      [ins_book 7 None; ins_book 8 None])), w0).
Proof.
  apply (RootExtras.insert_root_pushes_records demo book [("book", [])] []
           [ins_book 7 None; ins_book 8 None] w0); try reflexivity.
  repeat constructor.
Defined.

Lemma update_root_without_routing_witness :
  let ps := [upd_book 7 8; upd_book 9 9] in
  let docs := map (RootExtras.old_doc demo) (filter (RootExtras.pk_changed demo) ps) in
  _update_op demo book [("book", [])] ps w0 =
    (Ok (fs_set [("book", [])] "book"
           ([] ++ map (fun p => RootExtras.pk_record (data demo p) (node_primary_keys book)) ps)),
     mkWorld (trace w0 ++ (if nonempty docs then [EBulk docs None] else []))
             (checkpoint w0) (_truncate w0)).
Proof.
  apply (RootExtras.update_root_without_routing demo book [("book", [])] []
           [upd_book 7 8; upd_book 9 9] w0); try reflexivity.
  repeat constructor.
Defined.

Lemma doc_id_roundtrip_witness :
  let id := String.concat (delimiter demo) (map py_str [PyInt 7; PyStr "x"]) in
  get_doc_id demo [PyInt 7; PyStr "x"] (root_table demo) = Ok id /\
  py_split id (delimiter demo) = Ok (map py_str [PyInt 7; PyStr "x"]) /\
  where_of_doc_id demo id = where_from (root_pks demo) (map py_str [PyInt 7; PyStr "x"]) [].
Proof.
  apply (DocIdExtras.doc_id_roundtrip demo "|"%char [PyInt 7; PyStr "x"] (root_table demo));
    [reflexivity | discriminate |].
  repeat constructor; vm_compute; intros H;
    repeat (destruct H as [H|H]; [discriminate H|]); exact H.
Defined.

(** The demo tree with the primary-key delimiter ["_"]. *)
Definition underscore_demo : sync :=
  mkSync "book" None 8%Z false false "_" 5000%positive 5000
    book ["book"; "author"; "country"] ["public"] [book; author; country]
    get_node payload_data (fun _ _ => []) (fks false) fks_alt Demo.search parse.

Lemma doc_id_delimiter_in_value_witness :
  get_doc_id (underscore_demo) [PyStr "a_b"] (root_table (underscore_demo))
    = Ok "a_b" /\
  py_split "a_b" (delimiter (underscore_demo)) = Ok ["a"; "b"].
Proof.
  apply (DocIdExtras.doc_id_delimiter_in_value (underscore_demo)). reflexivity.
Defined.

Lemma truncate_root_deletes_all_witness :
  let ids := Sync.search demo (node_table book) None in
  _truncate_op demo book [("book", [])] w0 =
    (Ok [("book", [])],
     mkWorld (trace w0 ++ ESearch (node_table book) None ::
                (if nonempty ids
                 then [EBulk (map (fun id => mkDoc id (index demo) "delete" None
                                               (doc_type demo)) ids) None]
                 else []))
             (checkpoint w0) (_truncate w0)).
Proof.
  apply (TruncateExtras.truncate_root_deletes_all demo book [("book", [])] w0).
  reflexivity.
Defined.

End ExtraRuns.
